(** * xraycheck: port pool, process registry, partial results, the
      notworkers store and the comment stripper

    A shallow embedding of [lib/port_pool.py], [lib/signals.py],
    [notworkers_sqlite/store.py], [notworkers_sqlite/cli.py] and
    [strip_vpn_comments.py].  Python integers are [Z]; SQLite TEXT values
    and the Python [str] values of the store and of the signal handlers are
    [string] (byte strings, compared bytewise as SQLite's BINARY collation
    does); the [str] values of [strip_vpn_comments.py] are lists of code
    points; Python lists are [list], with the end of the list being the end
    that [append] and [pop] work on.  Module-level globals are passed and
    returned explicitly. *)

From Stdlib Require Import ZArith List String Ascii Bool Lia.
From Stdlib Require Import Permutation Sorting.Sorted.
Import ListNotations.
Open Scope Z_scope.

(* ================================================================== *)
(** * Part I: the program *)
(* ================================================================== *)

(** A call of a Python function either returns a value or raises an
    exception that nothing in the function catches. *)
Inductive outcome (A : Type) : Type :=
| Returns (a : A)
| Raises.

Arguments Returns {A} a.
Arguments Raises {A}.

(** ** lib/port_pool.py *)
Module PortPool.

(** Python's [list(range(a, b))]. *)
Definition range (a b : Z) : list Z :=
  map (fun i => a + Z.of_nat i) (seq 0 (Z.to_nat (b - a))).

(** The module body: the initial value of the global [_port_pool]. *)
Definition _port_pool (BASE_PORT MAX_WORKERS : Z) : list Z :=
  let _max_port := BASE_PORT + MAX_WORKERS - 1 in
  if 65535 <? _max_port then
    let _effective_workers := Z.max 0 (65535 - BASE_PORT + 1) in
    if _effective_workers <=? 0 then
      []
    else
      range BASE_PORT (BASE_PORT + _effective_workers)
  else
    range BASE_PORT (BASE_PORT + MAX_WORKERS).

(** [take_port]: the result and the pool afterwards.  [list.pop()] takes
    the last element. *)
Definition take_port (pool : list Z) : option Z * list Z :=
  match pool with
  | [] => (None, pool)
  | _ :: _ => (Some (last pool 0), removelast pool)
  end.

(** [return_port]: [list.append]. *)
Definition return_port (port : Z) (pool : list Z) : list Z :=
  pool ++ [port].

(** [n] calls of [take_port] in a row: the results in call order and the
    pool afterwards. *)
Fixpoint take_ports (n : nat) (pool : list Z) : list (option Z) * list Z :=
  match n with
  | O => ([], pool)
  | S k =>
      let '(r, pool1) := take_port pool in
      let '(rs, pool2) := take_ports k pool1 in
      (r :: rs, pool2)
  end.

(** The calls workers make on the pool. *)
Inductive pool_call :=
| Take
| Return (port : Z).

(** Drops the first occurrence of [p], if there is one. *)
Fixpoint remove_one (p : Z) (l : list Z) : list Z :=
  match l with
  | [] => []
  | x :: t => if Z.eqb x p then t else x :: remove_one p t
  end.

(** One call on the pool, with the ports the workers hold beside it: a
    successful [take_port] hands its port to a worker, [return_port] takes
    one back. *)
Definition pool_step (st : list Z * list Z) (c : pool_call)
    : list Z * list Z :=
  let '(pool, held) := st in
  match c with
  | Take =>
      match take_port pool with
      | (Some p, pool') => (pool', p :: held)
      | (None, pool') => (pool', held)
      end
  | Return p => (return_port p pool, remove_one p held)
  end.

Definition pool_run (cs : list pool_call) (st : list Z * list Z)
    : list Z * list Z :=
  fold_left pool_step cs st.

(** The callers' duty: a port is given back only while a worker holds it. *)
Fixpoint disciplined (st : list Z * list Z) (cs : list pool_call) : Prop :=
  match cs with
  | [] => True
  | c :: rest =>
      match c with
      | Take => True
      | Return p => In p (snd st)
      end /\ disciplined (pool_step st c) rest
  end.

End PortPool.

(** ** lib/signals.py *)
Module Signals.

(** A [subprocess.Popen] object compares by identity; a handle is the
    identity of the object. *)
Definition Popen := nat.

Definition entry : Type := Popen * Z.

Definition entry_eqb (a b : entry) : bool :=
  Nat.eqb (fst a) (fst b) && Z.eqb (snd a) (snd b).

(** Python's [list.remove(x)]: drops the first element equal to [x];
    [None] stands for the [ValueError] raised when there is none. *)
Fixpoint list_remove (x : entry) (l : list entry) : option (list entry) :=
  match l with
  | [] => None
  | y :: t =>
      if entry_eqb y x then Some t
      else match list_remove x t with
           | Some t' => Some (y :: t')
           | None => None
           end
  end.

(** The functions take the global [active_processes] and return its new
    value; the lock makes each body one step. *)
Definition register_process (proc : Popen) (port : Z)
    (active_processes : list entry) : list entry :=
  active_processes ++ [(proc, port)].

Definition unregister_process (proc : Popen) (port : Z)
    (active_processes : list entry) : list entry :=
  match list_remove (proc, port) active_processes with
  | Some l => l
  | None => active_processes   (* except ValueError: pass *)
  end.

(** Returns [(items, active_processes)]. *)
Definition _snapshot_and_clear_active (active_processes : list entry)
    : list entry * list entry :=
  let items := active_processes in
  (items, []).

(** [cleanup_processes]: the handles passed to [kill_xray_process] in
    order, the registry and the port pool afterwards. *)
Definition cleanup_processes (active_processes : list entry) (pool : list Z)
    : list Popen * list entry * list Z :=
  let '(items, active') := _snapshot_and_clear_active active_processes in
  (map fst items, active',
   fold_left (fun pl it => PortPool.return_port (snd it) pl) items pool).

(** A history of calls of the two worker-side operations. *)
Inductive call :=
| Register (proc : Popen) (port : Z)
| Unregister (proc : Popen) (port : Z).

Definition run_call (active : list entry) (c : call) : list entry :=
  match c with
  | Register proc port => register_process proc port active
  | Unregister proc port => unregister_process proc port active
  end.

Definition run_calls (cs : list call) (active : list entry) : list entry :=
  fold_left run_call cs active.

Definition entry_eq_dec (a b : entry) : {a = b} + {a <> b}.
Proof. decide equality; [apply Z.eq_dec | apply Nat.eq_dec]. Defined.

(** The specification's reading of a history: how many registrations of
    the pair [e] are still open, given that [n] were open before.  A
    registration opens one; an unregistration closes one if any is open. *)
Fixpoint outstanding (e : entry) (cs : list call) (n : nat) : nat :=
  match cs with
  | [] => n
  | Register proc port :: rest =>
      outstanding e rest (if entry_eq_dec (proc, port) e then S n else n)
  | Unregister proc port :: rest =>
      outstanding e rest (if entry_eq_dec (proc, port) e then Nat.pred n else n)
  end.

(** Python's [s.startswith(p)]. *)
Fixpoint startswith (p s : string) : bool :=
  match p with
  | EmptyString => true
  | String a p' =>
      match s with
      | EmptyString => false
      | String b s' => Ascii.eqb a b && startswith p' s'
      end
  end.

(** Python's [s.replace(old, new)] for a non-empty [old]: the occurrences
    of [old] are found from the left and do not overlap.  [skip] counts the
    characters of a matched occurrence that are still to be passed over. *)
Fixpoint replace_from (old new : string) (skip : nat) (s : string) : string :=
  match s with
  | EmptyString => EmptyString
  | String c s' =>
      match skip with
      | S k => replace_from old new k s'
      | O =>
          if startswith old s
          then new ++ replace_from old new (String.length old - 1) s'
          else String c (replace_from old new O s')
      end
  end.

Definition replace (old new s : string) : string :=
  replace_from old new O s.

(** Python's [sep.join(items)]. *)
Fixpoint join (sep : string) (items : list string) : string :=
  match items with
  | [] => EmptyString
  | [x] => x
  | x :: t => x ++ sep ++ join sep t
  end.

Definition newline : string := String (ascii_of_nat 10) EmptyString.

(** [save_partial_results]: [Some (path, text)] is the file opened for
    writing and the text written to it; [None] when the guard fails. *)
Definition save_partial_results (available_keys : list string)
    (output_path_global : string) : option (string * string) :=
  match available_keys, output_path_global with
  | [], _ => None
  | _, EmptyString => None
  | _, _ =>
      let partial_path := replace ".txt" "_partial.txt" output_path_global in
      Some (partial_path, join newline available_keys)
  end.

(** Python's [text.split("\n")]: the lines of a text. *)
Fixpoint split_newline (s : string) : list string :=
  match s with
  | EmptyString => [EmptyString]
  | String c s' =>
      if Ascii.eqb c (ascii_of_nat 10) then EmptyString :: split_newline s'
      else match split_newline s' with
           | [] => [String c EmptyString]
           | h :: t => String c h :: t
           end
  end.


(** [True] iff [p] occurs in [s] as a substring ([p in s]). *)
Fixpoint occurs (p s : string) : bool :=
  startswith p s ||
  match s with
  | EmptyString => false
  | String _ s' => occurs p s'
  end.

(** The globals of the module and of [port_pool], and what a run of the
    handlers does to the outside: the handles passed to
    [kill_xray_process], the files written, the exit status. *)
Record globals := mk_globals {
  active_processes : list entry;
  port_pool : list Z;
  interrupted : bool;
  available_keys : list string;
  output_path_global : string
}.

Record effects := mk_effects {
  killed : list Popen;
  written : list (string * string);
  exit_status : option Z
}.

(** [signal_handler] up to [sys.exit(0)]. *)
Definition signal_handler (g : globals) : globals * effects :=
  let '(kills, active', pool') :=
    cleanup_processes (active_processes g) (port_pool g) in
  let file :=
    match save_partial_results (available_keys g) (output_path_global g) with
    | Some f => [f]
    | None => []
    end in
  (mk_globals active' pool' true (available_keys g) (output_path_global g),
   mk_effects kills file (Some 0)).

(** [atexit.register(cleanup_processes)]: the hook that runs when the
    interpreter exits. *)
Definition exit_hook (g : globals) (e : effects) : globals * effects :=
  let '(kills, active', pool') :=
    cleanup_processes (active_processes g) (port_pool g) in
  (mk_globals active' pool' (interrupted g) (available_keys g)
              (output_path_global g),
   mk_effects (killed e ++ kills) (written e) (exit_status e)).

(** A signal: the handler, then the exit hook. *)
Definition on_signal (g : globals) : globals * effects :=
  let '(g1, e1) := signal_handler g in exit_hook g1 e1.

End Signals.

(** ** notworkers_sqlite/store.py *)
Module Store.

(** A row of the table [notworkers]. *)
Record row := mk_row {
  id : Z;                    (* INTEGER PRIMARY KEY AUTOINCREMENT *)
  key : string;              (* TEXT NOT NULL UNIQUE *)
  raw : string;              (* TEXT NOT NULL *)
  first_seen : string;       (* TEXT NOT NULL *)
  last_seen : string;        (* TEXT NOT NULL *)
  fail_count : Z;            (* INTEGER NOT NULL DEFAULT 1 *)
  source : option string     (* TEXT, [None] is NULL *)
}.

(** The statements the module passes to [conn.execute]. *)
Inductive statement :=
| CREATE_TABLE
| CREATE_INDEX
| INSERT_ON_CONFLICT (k r seen : string) (src : option string)
| SELECT_1_WHERE_KEY (k : string)
| DELETE_WHERE_LAST_SEEN_LT (cutoff : string)
| SELECT_COUNT
| DELETE_OLDEST (limit : Z)
| SELECT_RAW_ORDER_BY_KEY.

(** What is kept in the database file: the rows in rowid order and the
    largest rowid handed out so far (AUTOINCREMENT). *)
Definition database : Type := list row * Z.

(** An open connection: the table, the AUTOINCREMENT counter and the
    statements executed on the connection so far. *)
Record connection := mk_conn {
  notworkers : list row;
  sqlite_sequence : Z;
  executed : list statement
}.

Definition empty_database : database := ([], 0).

Definition close (conn : connection) : database :=
  (notworkers conn, sqlite_sequence conn).

Definition ran (st : statement) (conn : connection) : connection :=
  mk_conn (notworkers conn) (sqlite_sequence conn) (executed conn ++ [st]).

(** [init_db]: [None] is a path with no file yet.  The two CREATE
    statements change nothing in a table that exists and create an empty
    one otherwise. *)
Definition init_db (file : option database) : connection :=
  let d := match file with Some d => d | None => empty_database end in
  ran CREATE_INDEX (ran CREATE_TABLE (mk_conn (fst d) (snd d) [])).

(** SQL [COALESCE(a, b)]. *)
Definition COALESCE (a b : option string) : option string :=
  match a with
  | Some _ => a
  | None => b
  end.

(** The DO UPDATE SET clause applied to the row in conflict. *)
Definition do_update (excluded_raw excluded_last_seen : string)
    (excluded_source : option string) (r : row) : row :=
  {| id := id r;
     key := key r;
     raw := excluded_raw;
     first_seen := first_seen r;
     last_seen := excluded_last_seen;
     fail_count := fail_count r + 1;
     source := COALESCE excluded_source (source r) |}.

Definition has_key (k : string) (rows : list row) : bool :=
  existsb (fun r => String.eqb (key r) k) rows.

(** INSERT INTO notworkers (key, raw, first_seen, last_seen, fail_count,
    source) VALUES (?, ?, ?, ?, 1, ?) ON CONFLICT(key) DO UPDATE SET ...
    The rowid of the row to insert is drawn, and the AUTOINCREMENT counter
    advanced, before the conflict on [key] is found: the counter goes up by
    one in the DO UPDATE branch as well, where the row keeps its id. *)
Definition insert_on_conflict (conn : connection)
    (k r fs ls : string) (src : option string) : connection :=
  let conn := ran (INSERT_ON_CONFLICT k r ls src) conn in
  let new_id := sqlite_sequence conn + 1 in
  if has_key k (notworkers conn) then
    mk_conn
      (map (fun x => if String.eqb (key x) k then do_update r ls src x else x)
           (notworkers conn))
      new_id (executed conn)
  else
    mk_conn
      (notworkers conn ++
         [{| id := new_id; key := k; raw := r; first_seen := fs;
             last_seen := ls; fail_count := 1; source := src |}])
      new_id (executed conn).

(** Python's [not key] for a [str]. *)
Definition is_empty (s : string) : bool :=
  match s with
  | EmptyString => true
  | String _ _ => false
  end.

(** The value of [seen_at] after the default is filled in. *)
Definition seen_or (seen_at : option string) (utc_now_str : string) : string :=
  match seen_at with
  | None => utc_now_str
  | Some t => t
  end.

(** [upsert_notworker]; [utc_now_str] is what [_utc_now_str()] returns
    when the body calls it. *)
Definition upsert_notworker (utc_now_str : string) (conn : connection)
    (key raw : string) (source : option string) (seen_at : option string)
    : connection :=
  if is_empty key then conn
  else
    let seen_at := match seen_at with
                   | None => utc_now_str
                   | Some t => t
                   end in
    insert_on_conflict conn key raw seen_at seen_at source.

(** [is_notworker]: the answer and the connection afterwards. *)
Definition is_notworker (conn : connection) (key : string)
    : bool * connection :=
  if is_empty key then (false, conn)
  else
    let conn := ran (SELECT_1_WHERE_KEY key) conn in
    (has_key key (notworkers conn), conn).

Definition SECONDS_PER_DAY : Z := 86400.

(** [expire_old].  A [datetime] is a number of seconds (the microseconds
    play no part: a [timedelta] of whole days is subtracted and the format
    has no sub-second field); [utcnow] is what [datetime.utcnow()] returns
    and [strftime] renders a datetime with [DATETIME_FORMAT].  Both are
    library code and are taken as they come; the subtraction is taken
    inside the range of [datetime], where Python does not raise.  Returns
    the connection afterwards and [cur.rowcount]. *)
Definition expire_old (strftime : Z -> string) (utcnow : Z)
    (conn : connection) (max_age_days : Z) : connection * Z :=
  if max_age_days <=? 0 then (conn, 0)
  else
    let cutoff := utcnow - SECONDS_PER_DAY * max_age_days in
    let cutoff_str := strftime cutoff in
    let conn := ran (DELETE_WHERE_LAST_SEEN_LT cutoff_str) conn in
    let kept :=
      filter (fun r => negb (String.ltb (last_seen r) cutoff_str))
             (notworkers conn) in
    (mk_conn kept (sqlite_sequence conn) (executed conn),
     Z.of_nat (List.length (notworkers conn)) - Z.of_nat (List.length kept)).

(** The rendering of [DATETIME_FORMAT] ("%Y-%m-%dT%H:%M:%SZ") for
    datetimes counted in seconds from 1970-01-01T00:00:00, for the years
    1000 to 9999, where "%Y" gives four digits; what it gives for an
    earlier year depends on the C library (glibc does not pad it). *)
Definition digit (n : Z) : ascii := ascii_of_N (48 + Z.to_N (n mod 10)).

Definition two_digits (n : Z) : string :=
  String (digit (n / 10)) (String (digit n) EmptyString).

Definition four_digits (n : Z) : string :=
  String (digit (n / 1000)) (String (digit (n / 100)) (two_digits n)).

(** Year, month and day of the day number [z] (days from 1970-01-01) in
    the proleptic Gregorian calendar. *)
Definition civil_from_days (z : Z) : Z * Z * Z :=
  let z := z + 719468 in
  let era := z / 146097 in
  let doe := z - era * 146097 in
  let yoe := (doe - doe / 1460 + doe / 36524 - doe / 146096) / 365 in
  let doy := doe - (365 * yoe + yoe / 4 - yoe / 100) in
  let mp := (5 * doy + 2) / 153 in
  let d := doy - (153 * mp + 2) / 5 + 1 in
  let m := if mp <? 10 then mp + 3 else mp - 9 in
  let y := yoe + era * 400 in
  (if m <=? 2 then y + 1 else y, m, d).

Definition strftime_utc (t : Z) : string :=
  let '(y, m, d) := civil_from_days (t / SECONDS_PER_DAY) in
  let s := t mod SECONDS_PER_DAY in
  (four_digits y ++ "-" ++ two_digits m ++ "-" ++ two_digits d ++ "T" ++
   two_digits (s / 3600) ++ ":" ++ two_digits (s / 60 mod 60) ++ ":" ++
   two_digits (s mod 60) ++ "Z")%string.

(** The range of [datetime], in seconds from 1970-01-01T00:00:00:
    0001-01-01T00:00:00 to 9999-12-31T23:59:59; the first second of the
    year 1000; and the largest number of days of a [timedelta]. *)
Definition DATETIME_MIN : Z := -62135596800.
Definition DATETIME_MAX : Z := 253402300799.
Definition YEAR_1000 : Z := -30610224000.
Definition TIMEDELTA_MAX_DAYS : Z := 999999999.

(** [expire_old] with the range of [datetime] in front of it:
    [timedelta(days=max_age_days)], or the subtraction when the cutoff
    would be before the year 1, raises OverflowError, before any statement
    is executed. *)
Definition expire_old_checked (strftime : Z -> string) (utcnow : Z)
    (conn : connection) (max_age_days : Z) : outcome (connection * Z) :=
  if max_age_days <=? 0 then Returns (conn, 0)
  else if TIMEDELTA_MAX_DAYS <? max_age_days then Raises
  else if utcnow - SECONDS_PER_DAY * max_age_days <? DATETIME_MIN then Raises
  else Returns (expire_old strftime utcnow conn max_age_days).

(** The parts of [civil_from_days]: the year of the 400-year era that a
    day of the era is in, the day of the era a year begins with (years
    begin on 1 March), and the month (from March) and the day of the month
    of a day of the year. *)
Definition year_of_era (doe : Z) : Z :=
  (doe - doe / 1460 + doe / 36524 - doe / 146096) / 365.

Definition year_start (yoe : Z) : Z := 365 * yoe + yoe / 4 - yoe / 100.

Definition month_of_year (doy : Z) : Z := (5 * doy + 2) / 153.

Definition day_of_month (doy : Z) : Z :=
  doy - (153 * month_of_year doy + 2) / 5 + 1.

(** A date, a time of day and a datetime as one number each, in the order
    of time: yyyymmdd (with the year beginning in March, and in January),
    hhmmss and yyyymmddhhmmss. *)
Definition march_code (z : Z) : Z :=
  let z := z + 719468 in
  let era := z / 146097 in
  let doe := z - era * 146097 in
  let yoe := year_of_era doe in
  let doy := doe - year_start yoe in
  ((yoe + era * 400) * 100 + month_of_year doy) * 100 + day_of_month doy.

Definition date_code (ymd : Z * Z * Z) : Z :=
  let '(y, m, d) := ymd in (y * 100 + m) * 100 + d.

Definition time_code (s : Z) : Z :=
  (s / 3600 * 100 + s / 60 mod 60) * 100 + s mod 60.

Definition stamp_code (t : Z) : Z :=
  date_code (civil_from_days (t / SECONDS_PER_DAY)) * 1000000
  + time_code (t mod SECONDS_PER_DAY).

(** ORDER BY [col] ASC over the rows in rowid order; rows with equal
    values of [col] stay in rowid order. *)
Fixpoint insert_by (col : row -> string) (r : row) (l : list row) : list row :=
  match l with
  | [] => [r]
  | x :: t =>
      if String.leb (col r) (col x) then r :: l
      else x :: insert_by col r t
  end.

Fixpoint order_by (col : row -> string) (l : list row) : list row :=
  match l with
  | [] => []
  | x :: t => insert_by col x (order_by col t)
  end.

(** [a] does not come after [b] in ORDER BY [col] ASC. *)
Definition col_le (col : row -> string) (a b : row) : Prop :=
  String.leb (col a) (col b) = true.

Definition mem (i : Z) (l : list Z) : bool := existsb (Z.eqb i) l.

(** [prune_to_max]: the connection afterwards and [cur.rowcount]. *)
Definition prune_to_max (conn : connection) (max_rows : Z) : connection * Z :=
  if max_rows <=? 0 then (conn, 0)
  else
    let conn := ran SELECT_COUNT conn in
    let total := Z.of_nat (List.length (notworkers conn)) in
    if total <=? max_rows then (conn, 0)
    else
      let to_delete := total - max_rows in
      let conn := ran (DELETE_OLDEST to_delete) conn in
      let ids :=
        map id (firstn (Z.to_nat to_delete)
                       (order_by last_seen (notworkers conn))) in
      let kept := filter (fun r => negb (mem (id r) ids)) (notworkers conn) in
      (mk_conn kept (sqlite_sequence conn) (executed conn),
       Z.of_nat (List.length (notworkers conn)) - Z.of_nat (List.length kept)).

(** The loop of [migrate_from_flat] over [normalized_to_full.items()];
    [clock i] is what [_utc_now_str()] returns in iteration [i]. *)
Fixpoint migrate_loop (clock : nat -> string) (source : string) (i : nat)
    (items : list (string * string)) (conn : connection)
    (inserted updated : Z) : connection * (Z * Z) :=
  match items with
  | [] => (conn, (inserted, updated))
  | (norm, full) :: rest =>
      let conn := ran (SELECT_1_WHERE_KEY norm) conn in
      let exists_ := has_key norm (notworkers conn) in
      let conn := upsert_notworker (clock i) conn norm full (Some source) None in
      if exists_
      then migrate_loop clock source (S i) rest conn inserted (updated + 1)
      else migrate_loop clock source (S i) rest conn (inserted + 1) updated
  end.

(** [migrate_from_flat].  [flat] is [None] when [flat_path] is not a file
    and otherwise the dictionary [normalized_to_full] that
    [load_notworkers_with_lines] returns for it, in iteration order; the
    result is the database file afterwards and [(inserted, updated)]. *)
Definition migrate_from_flat (clock : nat -> string)
    (flat : option (list (string * string))) (db_file : option database)
    (source : string) : option database * (Z * Z) :=
  match flat with
  | None => (db_file, (0, 0))
  | Some [] => (db_file, (0, 0))
  | Some normalized_to_full =>
      let conn := init_db db_file in
      let '(conn, counts) :=
        migrate_loop clock source O normalized_to_full conn 0 0 in
      (Some (close conn), counts)
  end.

(** Python's [raw.endswith("\n")]. *)
Fixpoint endswith_newline (s : string) : bool :=
  match s with
  | EmptyString => false
  | String c EmptyString => Ascii.eqb c (ascii_of_nat 10)
  | String _ s' => endswith_newline s'
  end.

(** What one iteration of the export loop writes. *)
Definition export_line (raw : string) : string :=
  if endswith_newline raw then raw else raw ++ Signals.newline.

(** [export_to_flat]: the database file afterwards, the text written to
    [flat_path] ([None]: the file is not opened) and the count returned.
    The connection is opened on the file as it is and nothing is committed. *)
Definition export_to_flat (db_file : option database)
    : option database * option string * Z :=
  match db_file with
  | None => (db_file, None, 0)
  | Some d =>
      let conn := mk_conn (fst d) (snd d) [] in
      let conn := ran SELECT_RAW_ORDER_BY_KEY conn in
      let cur := map raw (order_by key (notworkers conn)) in
      let written := map export_line cur in
      (Some (close conn), Some (String.concat EmptyString written),
       Z.of_nat (List.length written))
  end.

(** The rows of a database file; a missing file has none. *)
Definition rows_of (db_file : option database) : list row :=
  match db_file with
  | Some d => fst d
  | None => []
  end.

(** The operations that change the table, as calls on a connection;
    [Migrate] is the loop of [migrate_from_flat]. *)
Inductive operation :=
| Upsert (utc_now_str key raw : string) (source seen_at : option string)
| Expire (strftime : Z -> string) (utcnow max_age_days : Z)
| Prune (max_rows : Z)
| Migrate (clock : nat -> string) (normalized_to_full : list (string * string))
          (source : string).

Definition apply_operation (op : operation) (conn : connection) : connection :=
  match op with
  | Upsert now k r src seen => upsert_notworker now conn k r src seen
  | Expire strftime utcnow days => fst (expire_old strftime utcnow conn days)
  | Prune max_rows => fst (prune_to_max conn max_rows)
  | Migrate clock items src => fst (migrate_loop clock src O items conn 0 0)
  end.

(** The invariant of the specification on one row. *)
Definition row_ok (r : row) : Prop :=
  String.leb (first_seen r) (last_seen r) = true /\ 1 <= fail_count r.

(** The invariant of the specification on the table, part by part: [key]
    is unique, every [fail_count] is at least 1, and no [first_seen] is
    after its [last_seen]. *)
Definition keys_unique (conn : connection) : Prop :=
  NoDup (map key (notworkers conn)).

Definition counts_ok (conn : connection) : Prop :=
  Forall (fun r => 1 <= fail_count r) (notworkers conn).

Definition times_ok (conn : connection) : Prop :=
  Forall (fun r => String.leb (first_seen r) (last_seen r) = true)
         (notworkers conn).

(** What the schema adds: rowids are unique and none is above the
    AUTOINCREMENT counter. *)
Definition ids_ok (conn : connection) : Prop :=
  NoDup (map id (notworkers conn))
  /\ Forall (fun r => id r <= sqlite_sequence conn) (notworkers conn).

(** [fail_count] does not go down: a key in the table before and after
    has at least the count it had. *)
Definition fail_count_kept (before after : connection) : Prop :=
  forall r r', In r (notworkers before) -> In r' (notworkers after) ->
               key r = key r' -> fail_count r <= fail_count r'.

(** Rows only grow: every row of before is still there under its key,
    with its [first_seen] and with at least its count. *)
Definition rows_grow (before after : connection) : Prop :=
  forall x, In x (notworkers before) ->
  exists x', In x' (notworkers after)
             /\ key x' = key x /\ first_seen x' = first_seen x
             /\ fail_count x <= fail_count x'.

(** The observation time of an upsert is not before the [first_seen] of
    the row it updates; in a migration, which reads the clock once per
    key, each reading is not before the [first_seen] of the row of its
    key, and the keys are those of a dictionary. *)
Definition in_time_order (op : operation) (conn : connection) : Prop :=
  match op with
  | Upsert now k _ _ seen =>
      forall r, In r (notworkers conn) -> key r = k ->
                String.leb (first_seen r) (seen_or seen now) = true
  | Migrate clock items _ =>
      NoDup (map fst items)
      /\ forall i nf, nth_error items i = Some nf ->
           forall r, In r (notworkers conn) -> key r = fst nf ->
                     String.leb (first_seen r) (clock i) = true
  | Expire _ _ _ | Prune _ => True
  end.

(** The connections a new store can get to by any operations, and by
    operations in time order. *)
Inductive reached : connection -> Prop :=
| reached_new : reached (init_db None)
| reached_step (op : operation) (conn : connection) :
    reached conn -> reached (apply_operation op conn).

Inductive reachable : connection -> Prop :=
| reachable_new : reachable (init_db None)
| reachable_step (op : operation) (conn : connection) :
    reachable conn -> in_time_order op conn ->
    reachable (apply_operation op conn).

(** Example data: a table whose rows were last seen on four different
    days, not in rowid order, and a table with one row seen 31 days and one
    row seen 29 days before 2025-11-03T20:00:00 (1762200000). *)
Definition four_rows : connection :=
  mk_conn
    [mk_row 1 "k3" "r3" "2026-01-01T00:00:00Z" "2026-01-03T00:00:00Z" 2 None;
     mk_row 2 "k1" "r1" "2026-01-01T00:00:00Z" "2026-01-01T00:00:00Z" 1 None;
     mk_row 3 "k4" "r4" "2026-01-02T00:00:00Z" "2026-01-04T00:00:00Z" 5 None;
     mk_row 4 "k2" "r2" "2026-01-02T00:00:00Z" "2026-01-02T00:00:00Z" 1 None]
    4 [].

Definition two_ages : connection :=
  mk_conn
    [mk_row 1 "old" "o" "2025-10-03T20:00:00Z" "2025-10-03T20:00:00Z" 1 None;
     mk_row 2 "new" "n" "2025-10-05T20:00:00Z" "2025-10-05T20:00:00Z" 1 None]
    2 [].

(** SQL [MIN] and [MAX] over a TEXT column: NULL when there is no row. *)
Fixpoint MIN (l : list string) : option string :=
  match l with
  | [] => None
  | x :: t =>
      match MIN t with
      | None => Some x
      | Some m => Some (if String.ltb x m then x else m)
      end
  end.

Fixpoint MAX (l : list string) : option string :=
  match l with
  | [] => None
  | x :: t =>
      match MAX t with
      | None => Some x
      | Some m => Some (if String.ltb m x then x else m)
      end
  end.

Record NotworkersStats := mk_stats {
  total : Z;
  min_first_seen : option string;
  max_last_seen : option string
}.

(** [get_stats]: SELECT COUNT( * ), MIN(first_seen), MAX(last_seen) FROM
    notworkers.  The query reads the table and always yields one row, so
    the branch for a missing row is never taken. *)
Definition get_stats (conn : connection) : NotworkersStats :=
  mk_stats (Z.of_nat (List.length (notworkers conn)))
           (MIN (map first_seen (notworkers conn)))
           (MAX (map last_seen (notworkers conn))).

(** The number of dictionary keys that the table has, and has not. *)
Definition count_present (items : list (string * string)) (rows : list row)
    : Z :=
  Z.of_nat (List.length (filter (fun nf => has_key (fst nf) rows) items)).

Definition count_absent (items : list (string * string)) (rows : list row)
    : Z :=
  Z.of_nat (List.length (filter (fun nf => negb (has_key (fst nf) rows)) items)).

(** A line without the newline that closes it, if one does. *)
Fixpoint chomp (s : string) : string :=
  match s with
  | EmptyString => EmptyString
  | String c EmptyString =>
      if Ascii.eqb c (ascii_of_nat 10) then EmptyString else s
  | String c s' => String c (chomp s')
  end.

(** Example data: the dictionary of a flat file with five descriptors. *)
Definition five_descriptors : list (string * string) :=
  [("vless://e@h5:443", "vless://e@h5:443#five");
   ("vless://b@h2:443", "vless://b@h2:443#two");
   ("vless://d@h4:443", "vless://d@h4:443#four");
   ("vless://a@h1:443", "vless://a@h1:443#one");
   ("vless://c@h3:443", "vless://c@h3:443#three")]%string.

End Store.

(** ** notworkers_sqlite/cli.py *)
Module Cli.
Import Store.



End Cli.

(** ** strip_vpn_comments.py *)
Module StripVpnComments.

(** A Python [str] here is the list of its code points. *)
Definition str : Type := list Z.

(** [str.isspace] of one character: the code points Python takes for
    whitespace. *)
Definition isspace (c : Z) : bool :=
  ((9 <=? c) && (c <=? 13)) || ((28 <=? c) && (c <=? 32))
  || (c =? 133) || (c =? 160) || (c =? 5760)
  || ((8192 <=? c) && (c <=? 8202))
  || (c =? 8232) || (c =? 8233) || (c =? 8239) || (c =? 8287)
  || (c =? 12288).

(** [str.strip()] without argument takes the whitespace off both ends. *)
Fixpoint lstrip (s : str) : str :=
  match s with
  | [] => []
  | c :: t => if isspace c then lstrip t else s
  end.

Fixpoint rstrip (s : str) : str :=
  match s with
  | [] => []
  | c :: t =>
      match rstrip t with
      | [] => if isspace c then [] else [c]
      | r => c :: r
      end
  end.

Definition strip (s : str) : str := rstrip (lstrip s).

Definition HASH : Z := 35.

(** [s.split("#", 1)[0]]: what stands before the first "#". *)
Fixpoint before_hash (s : str) : str :=
  match s with
  | [] => []
  | c :: t => if c =? HASH then [] else c :: before_hash t
  end.

Definition strip_comment_from_line (line : str) : str :=
  let line := strip line in
  match line with
  | [] => line                        (* not line *)
  | c :: _ =>
      if c =? HASH then line          (* line.startswith("#") *)
      else strip (before_hash line)
  end.

(** [country_code_to_flag]; [upper] is [str.upper]. *)
Definition GLOBE : Z := 127760.              (* U+1F310 *)
Definition REGIONAL_INDICATOR_A : Z := 127462. (* U+1F1E6 *)

Definition country_code_to_flag (upper : str -> str) (cc : str) : str :=
  match cc with
  | [_; _] =>
      let a := REGIONAL_INDICATOR_A in
      map (fun c => a + c - 65)
          (filter (fun c => (65 <=? c) && (c <=? 90)) (upper cc))
  | _ => [GLOBE]
  end.

(** [str.upper] on ASCII text. *)
Definition ascii_upper (c : Z) : Z :=
  if (97 <=? c) && (c <=? 122) then c - 32 else c.

Definition is_ascii (c : Z) : bool := (0 <=? c) && (c <? 128).

(** Helpers on texts: [c in s], [s.startswith(p)], [p in s],
    [s.split(c)[0]], [s.rsplit(c, 1)[1]] and [s.rpartition(c)[0]] (the last
    two for a text that holds [c]). *)
Definition has_char (c : Z) (s : str) : bool := existsb (Z.eqb c) s.

Fixpoint startswith (p s : str) : bool :=
  match p with
  | [] => true
  | a :: p' =>
      match s with
      | [] => false
      | b :: s' => (a =? b) && startswith p' s'
      end
  end.

Fixpoint has_sub (p s : str) : bool :=
  startswith p s ||
  match s with
  | [] => false
  | _ :: s' => has_sub p s'
  end.

Fixpoint before (c : Z) (s : str) : str :=
  match s with
  | [] => []
  | x :: t => if x =? c then [] else x :: before c t
  end.

Fixpoint after_last (c : Z) (s : str) : str :=
  match s with
  | [] => []
  | x :: t =>
      if has_char c t then after_last c t
      else if x =? c then t else s
  end.

Fixpoint before_last (c : Z) (s : str) : str :=
  match s with
  | [] => []
  | x :: t => if has_char c t then x :: before_last c t else []
  end.

Definition QUESTION : Z := 63.
Definition AT : Z := 64.
Definition COLON : Z := 58.
Definition SLASH : Z := 47.

(** "vless://", "vmess://", "trojan://", "ss://", "hy2://",
    "hysteria2://", "hysteria://". *)
Definition PREFIXES : list str :=
  [[118; 108; 101; 115; 115; 58; 47; 47];
   [118; 109; 101; 115; 115; 58; 47; 47];
   [116; 114; 111; 106; 97; 110; 58; 47; 47];
   [115; 115; 58; 47; 47];
   [104; 121; 50; 58; 47; 47];
   [104; 121; 115; 116; 101; 114; 105; 97; 50; 58; 47; 47];
   [104; 121; 115; 116; 101; 114; 105; 97; 58; 47; 47]].

(** The body of the loop of [get_host_from_link] once a prefix fits:
    [rest] is [link[len(prefix):].strip()]; [None] is the [break]. *)
Definition host_of_rest (rest : str) : option str :=
  let rest := if has_char QUESTION rest then before QUESTION rest else rest in
  if has_char AT rest then
    let host_port := after_last AT rest in
    if has_char COLON host_port
    then Some (strip (before_last COLON host_port))
    else Some (strip host_port)
  else if has_sub [COLON; SLASH; SLASH] rest
       then Some (strip (before SLASH rest))
       else None.

(** The loop over the prefixes: the first prefix the link starts with
    decides. *)
Fixpoint host_by_prefix (prefixes : list str) (link : str) : option str :=
  match prefixes with
  | [] => None
  | prefix :: more =>
      if startswith prefix link
      then host_of_rest (strip (skipn (List.length prefix) link))
      else host_by_prefix more link
  end.

(** [get_host_from_link].  [parse_proxy_url] is [None] when the import
    failed; else it gives the address of a link when the parsed link has
    one that is a text. *)
Definition get_host_from_link (parse_proxy_url : option (str -> option str))
    (link : str) : option str :=
  match match parse_proxy_url with
        | Some parse => parse link
        | None => None
        end with
  | Some address => Some (strip address)
  | None => host_by_prefix PREFIXES link
  end.

(** A [dict] of texts: the first pair of a key is its entry. *)
Definition dict : Type := list (str * str).

Definition str_eq_dec : forall a b : str, {a = b} + {a <> b} :=
  list_eq_dec Z.eq_dec.

Fixpoint dict_get (k : str) (d : dict) : option str :=
  match d with
  | [] => None
  | (k', v) :: rest => if str_eq_dec k k' then Some v else dict_get k rest
  end.

(** [fetch_country_for_ip]: the code returned, the cache afterwards and
    the addresses asked from the service.  [api ip] is the "countryCode" of
    the answer (or "" when it has none), [None] when the request or the
    decoding raises. *)
Definition fetch_country_for_ip (api : str -> option str) (ip : str)
    (cache : dict) : str * dict * list str :=
  match dict_get ip cache with
  | Some cc => (cc, cache, [])
  | None =>
      match api ip with
      | Some cc => (cc, (ip, cc) :: cache, [ip])
      | None => ([], (ip, []) :: cache, [ip])
      end
  end.

(** A run of calls of [fetch_country_for_ip] on one cache. *)
Fixpoint fetch_all (api : str -> option str) (ips : list str) (cache : dict)
    : dict * list str :=
  match ips with
  | [] => (cache, [])
  | ip :: rest =>
      let '(_, cache1, asked) := fetch_country_for_ip api ip cache in
      let '(cache2, asked') := fetch_all api rest cache1 in
      (cache2, asked ++ asked')
  end.

(** [str.splitlines()]: the characters that end a line. *)
Definition is_linebreak (c : Z) : bool :=
  ((10 <=? c) && (c <=? 13)) || ((28 <=? c) && (c <=? 30))
  || (c =? 133) || (c =? 8232) || (c =? 8233).

(** The text cut at its line breaks, the last piece being what follows the
    last break; "\r\n" is one break ([after_cr] tells that the character
    before was "\r"). *)
Fixpoint pieces (after_cr : bool) (s : str) : list str :=
  match s with
  | [] => [[]]
  | c :: t =>
      if after_cr && (c =? 10) then pieces false t
      else if is_linebreak c then [] :: pieces (c =? 13) t
      else match pieces false t with
           | h :: r => (c :: h) :: r
           | [] => [[c]]
           end
  end.

(** A text without a line break. *)
Definition clean (l : str) : Prop :=
  forall c, In c l -> is_linebreak c = false.

(** [str.splitlines()]: an empty last piece is no line. *)
Definition splitlines (s : str) : list str :=
  let p := pieces false s in
  match last p [] with
  | [] => removelast p
  | _ :: _ => p
  end.

(** [sep.join(items)]. *)
Fixpoint join (sep : str) (items : list str) : str :=
  match items with
  | [] => []
  | [x] => x
  | x :: t => x ++ sep ++ join sep t
  end.

(** " verified · XRayCheck". *)
Definition DEFAULT_AUTO_COMMENT : str :=
  [32; 118; 101; 114; 105; 102; 105; 101; 100; 32; 183; 32;
   88; 82; 97; 121; 67; 104; 101; 99; 107].

(** [get_auto_comment]; the argument is the value of the environment
    variable AUTO_COMMENT, [None] when it is not set. *)
Definition get_auto_comment (AUTO_COMMENT : option str) : str :=
  match strip (match AUTO_COMMENT with
               | Some v => v
               | None => DEFAULT_AUTO_COMMENT
               end) with
  | [] => DEFAULT_AUTO_COMMENT
  | v => v
  end.

(** What [socket.gethostbyname] does with a host: it returns an address,
    raises [socket.gaierror] or another [OSError], or raises an exception
    of another class (a [UnicodeError] for a host with an empty or an
    over-long label, as in "h..x"). *)
Inductive lookup :=
| Address (ip : str)
| OSError
| OtherError.

(** What the module takes from its surroundings: the settings read from
    the environment when it is loaded, the parser it may have imported,
    and the library and network calls. *)
Record environment := mk_environment {
  STRIP_FAST : bool;
  STRIP_CC_DEFAULT : str;
  AUTO_COMMENT : option str;
  parse_proxy_url : option (str -> option str);
  upper : str -> str;                 (* str.upper *)
  isdigit : str -> bool;              (* str.isdigit *)
  gethostbyname : str -> lookup;      (* socket.gethostbyname *)
  api : str -> option str             (* the answer of ip-api.com *)
}.

(** [resolve_to_ip]: only [socket.gaierror] and [OSError] are caught. *)
Definition resolve_to_ip (e : environment) (host : str)
    : outcome (option str) :=
  match host with
  | [] => Returns None
  | _ :: _ =>
      if isdigit e (filter (fun c => negb (c =? 46)) host)
      then Returns (Some host)
      else match gethostbyname e host with
           | Address ip => Returns (Some ip)
           | OSError => Returns None
           | OtherError => Raises
           end
  end.

Definition is_nil {A : Type} (s : list A) : bool :=
  match s with
  | [] => true
  | _ :: _ => false
  end.

Definition or_empty (v : option str) : str :=
  match v with
  | Some x => x
  | None => []
  end.

(** The hosts that count as true: neither [None] nor empty. *)
Definition truthy (hosts : list (option str)) : list str :=
  flat_map (fun h => match h with
                     | Some (c :: t) => [c :: t]
                     | _ => []
                     end) hosts.

(** [_resolve_host] mapped over [unique_hosts]: the dictionary
    [host_to_ip] it fills.  [list(executor.map(...))] raises what a call
    has raised. *)
Fixpoint resolve_all (e : environment) (unique_hosts : list str)
    : outcome dict :=
  match unique_hosts with
  | [] => Returns []
  | h :: rest =>
      match resolve_to_ip e h, resolve_all e rest with
      | Returns ip, Returns host_to_ip =>
          Returns ((h, or_empty ip) :: host_to_ip)
      | _, _ => Raises
      end
  end.

(** [process_file] on the text of the input file ([None]: no such file):
    the text written to the output file and the number returned, or the
    exception of a lookup, raised before anything is written.  The two
    pools of threads fill [host_to_ip] and [geo_cache] with one entry per
    host and per address; the order in which they do plays no part. *)
Definition process_file (e : environment) (file : option str)
    (add_comment : bool) : outcome (option str * Z) :=
  match file with
  | None => Returns (None, 0)
  | Some text =>
      let lines_in := splitlines text in
      let links :=
        filter (fun link => negb (is_nil link))
               (map strip_comment_from_line lines_in) in
      let hosts :=
        map (fun link =>
               if add_comment && negb (STRIP_FAST e)
               then get_host_from_link (parse_proxy_url e) link
               else None) links in
      match (if add_comment && negb (STRIP_FAST e)
             then resolve_all e (nodup str_eq_dec (truthy hosts))
             else Returns []) with
      | Raises => Raises
      | Returns host_to_ip =>
          let geo_cache : dict :=
            if add_comment && negb (STRIP_FAST e)
            then fst (fetch_all (api e)
                        (nodup str_eq_dec
                           (filter (fun ip => negb (is_nil ip))
                                   (map snd host_to_ip))) [])
            else [] in
          let result :=
            map (fun lh : str * option str =>
                   let (link, host) := lh in
                   if add_comment then
                     let cc :=
                       if STRIP_FAST e then STRIP_CC_DEFAULT e
                       else
                         let ip := match host with
                                   | Some (c :: t) =>
                                       or_empty (dict_get (c :: t) host_to_ip)
                                   | _ => []
                                   end in
                         or_empty (dict_get ip geo_cache) in
                     let flag := country_code_to_flag (upper e) cc in
                     link ++ [HASH] ++ flag ++ [32]
                          ++ strip (get_auto_comment (AUTO_COMMENT e))
                   else link)
                (combine links hosts) in
          Returns
            (Some (join [10] result ++ (if is_nil result then [] else [10])),
             Z.of_nat (List.length result))
      end
  end.

(** Example data: settings outside the fast mode, where the host "h1"
    has the address "1.2.3.4", a host with an empty label makes the lookup
    raise [UnicodeError], no other host is found, and the service answers
    "de"; and the text "vless://u@h1:443 # old\r\n\nvless://u@h2:443\n". *)
Definition example_environment : environment :=
  mk_environment false [] None None (map ascii_upper)
    (fun s => forallb (fun c => (48 <=? c) && (c <=? 57)) s)
    (fun h => if str_eq_dec h [104; 49]
              then Address [49; 46; 50; 46; 51; 46; 52]
              else if has_sub [46; 46] h then OtherError else OSError)
    (fun ip => Some [100; 101]).


End StripVpnComments.

(* ================================================================== *)
(** * Part II: properties *)
(* ================================================================== *)

(** ** The port pool *)
Section PortPoolFacts.
Import PortPool.

Lemma in_range (a b p : Z) : In p (range a b) <-> a <= p < b.
Proof.
  unfold range. rewrite in_map_iff. split.
  - intros [i [Hp Hi]]. apply in_seq in Hi. lia.
  - intros H. exists (Z.to_nat (p - a)). split; [lia|].
    apply in_seq. lia.
Qed.

Lemma NoDup_range (a b : Z) : NoDup (range a b).
Proof.
  unfold range.
  apply NoDup_map_NoDup_ForallPairs; [|apply seq_NoDup].
  intros x y _ _ H. lia.
Qed.

Lemma length_range (a b : Z) : Z.of_nat (List.length (range a b)) = Z.max 0 (b - a).
Proof. unfold range. rewrite length_map, length_seq. lia. Qed.

Lemma range_empty (a b : Z) : b <= a -> range a b = [].
Proof.
  intros H. unfold range.
  replace (Z.to_nat (b - a)) with O by lia. reflexivity.
Qed.

(** The three branches of the module body compute one clamped range. *)
Lemma port_pool_as_range (BASE_PORT MAX_WORKERS : Z) :
  _port_pool BASE_PORT MAX_WORKERS =
  range BASE_PORT (Z.min (BASE_PORT + MAX_WORKERS) 65536).
Proof.
  unfold _port_pool.
  destruct (65535 <? BASE_PORT + MAX_WORKERS - 1) eqn:Hov.
  - apply Z.ltb_lt in Hov.
    rewrite Z.min_r by lia.
    destruct (Z.max 0 (65535 - BASE_PORT + 1) <=? 0) eqn:Heff.
    + apply Z.leb_le in Heff. symmetry. apply range_empty. lia.
    + apply Z.leb_gt in Heff. f_equal. lia.
  - apply Z.ltb_ge in Hov. rewrite Z.min_l by lia. reflexivity.
Qed.

Lemma take_port_snoc (l : list Z) (x : Z) : take_port (l ++ [x]) = (Some x, l).
Proof.
  unfold take_port. destruct (l ++ [x]) eqn:E.
  - destruct l; discriminate.
  - rewrite <- E, last_last, removelast_last. reflexivity.
Qed.

Lemma take_ports_all (l : list Z) :
  take_ports (List.length l) l = (map Some (rev l), []).
Proof.
  induction l as [|x l IH] using rev_ind; [reflexivity|].
  rewrite length_app, Nat.add_comm. simpl.
  rewrite take_port_snoc, IH, rev_app_distr. reflexivity.
Qed.

Lemma take_ports_snoc (n : nat) (l : list Z) :
  take_ports (S n) l =
  (fst (take_ports n l) ++ [fst (take_port (snd (take_ports n l)))],
   snd (take_port (snd (take_ports n l)))).
Proof.
  revert l. induction n as [|n IH]; intros l.
  - simpl. destruct (take_port l). reflexivity.
  - change (take_ports (S (S n)) l)
      with (let '(r, pool1) := take_port l in
            let '(rs, pool2) := take_ports (S n) pool1 in (r :: rs, pool2)).
    destruct (take_port l) as [r pool1] eqn:E.
    rewrite IH. simpl. rewrite E.
    destruct (take_ports n pool1) as [rs pool2]. simpl.
    destruct (take_port pool2). reflexivity.
Qed.

(** C4: the pool starts with exactly the ports of [base, base+capacity-1]
    that do not exceed 65535, each once and in increasing order; its size
    is the capacity cut down to fit, 0 when the base itself is above 65535;
    base 65530 with capacity 10 gives the 6 ports 65530..65535. *)
Theorem port_pool_initialization (BASE_PORT MAX_WORKERS : Z) :
  let pool := _port_pool BASE_PORT MAX_WORKERS in
  (forall p, In p pool <->
             BASE_PORT <= p <= BASE_PORT + MAX_WORKERS - 1 /\ p <= 65535)
  /\ NoDup pool
  /\ pool = range BASE_PORT (Z.min (BASE_PORT + MAX_WORKERS) 65536)
  /\ Z.of_nat (List.length pool) =
     Z.max 0 (Z.min MAX_WORKERS (65535 - BASE_PORT + 1))
  /\ _port_pool 65530 10 = [65530; 65531; 65532; 65533; 65534; 65535].
Proof.
  cbv zeta. rewrite port_pool_as_range. repeat split.
  - apply in_range in H. lia.
  - apply in_range in H. lia.
  - apply in_range in H. lia.
  - intros [H1 H2]. apply in_range. lia.
  - apply NoDup_range.
  - rewrite length_range. lia.
Qed.

(** C8: from a pool of N ports, N takes in a row all succeed and empty the
    pool; the next take returns [None] and leaves the pool empty; after one
    [return_port] exactly one more take succeeds (with the port given
    back) and the take after it returns [None] again. *)
Theorem pool_exhaustion (pool : list Z) (port : Z) :
  let N := List.length pool in
  let exhausted := snd (take_ports (S N) pool) in
  take_ports N pool = (map Some (rev pool), [])
  /\ take_ports (S N) pool = (map Some (rev pool) ++ [None], [])
  /\ take_port exhausted = (None, [])
  /\ take_ports 2 (return_port port exhausted) = ([Some port; None], []).
Proof.
  cbv zeta.
  rewrite take_ports_snoc, take_ports_all. simpl.
  repeat split; reflexivity.
Qed.

(** The same on the pool the module starts with. *)
Corollary initial_pool_exhaustion (BASE_PORT MAX_WORKERS port : Z) :
  let pool := _port_pool BASE_PORT MAX_WORKERS in
  let N := List.length pool in
  fst (take_ports N pool) = map Some (rev pool)
  /\ nth_error (fst (take_ports (S N) pool)) N = Some None
  /\ take_ports 2 (return_port port (snd (take_ports (S N) pool)))
     = ([Some port; None], []).
Proof.
  cbv zeta.
  rewrite take_ports_snoc, take_ports_all. simpl.
  repeat split.
  rewrite nth_error_app2; rewrite length_map, length_rev; [|lia].
  rewrite Nat.sub_diag. reflexivity.
Qed.

End PortPoolFacts.

(** ** The process registry and the partial results *)
Section SignalsFacts.
Import Signals.

Lemma entry_eqb_eq (a b : entry) : entry_eqb a b = true <-> a = b.
Proof.
  unfold entry_eqb. destruct a as [h p], b as [h' p']. simpl.
  rewrite andb_true_iff, Nat.eqb_eq, Z.eqb_eq.
  split; [intros [-> ->]; reflexivity | intros H; inversion H; auto].
Qed.

Lemma list_remove_absent (x : entry) (l : list entry) :
  ~ In x l -> list_remove x l = None.
Proof.
  induction l as [|y t IH]; simpl; intros H; [reflexivity|].
  destruct (entry_eqb y x) eqn:E.
  - apply entry_eqb_eq in E. tauto.
  - rewrite IH; tauto.
Qed.

(** [list.remove] takes away one occurrence of its argument and nothing
    else. *)
Lemma count_occ_list_remove (x e : entry) (l l' : list entry) :
  list_remove x l = Some l' ->
  count_occ entry_eq_dec l' e =
  if entry_eq_dec x e then Nat.pred (count_occ entry_eq_dec l e)
  else count_occ entry_eq_dec l e.
Proof.
  revert l'. induction l as [|y t IH]; simpl; intros l' H; [discriminate|].
  destruct (entry_eqb y x) eqn:E.
  - apply entry_eqb_eq in E. subst y. inversion H; subst l'.
    destruct (entry_eq_dec x e); reflexivity.
  - destruct (list_remove x t) as [t'|]; [|discriminate].
    inversion H; subst l'. simpl. rewrite (IH t' eq_refl).
    destruct (entry_eq_dec y e) as [->|]; destruct (entry_eq_dec x e) as [->|];
      try reflexivity.
    rewrite (proj2 (entry_eqb_eq e e) eq_refl) in E. discriminate.
Qed.

Lemma count_occ_unregister (proc : Popen) (port : Z) (e : entry) (a : list entry) :
  count_occ entry_eq_dec (unregister_process proc port a) e =
  if entry_eq_dec (proc, port) e then Nat.pred (count_occ entry_eq_dec a e)
  else count_occ entry_eq_dec a e.
Proof.
  unfold unregister_process.
  destruct (list_remove (proc, port) a) as [l|] eqn:E.
  - apply count_occ_list_remove; assumption.
  - destruct (entry_eq_dec (proc, port) e) as [<-|]; [|reflexivity].
    destruct (in_dec entry_eq_dec (proc, port) a) as [Hin|Hno].
    + clear -E Hin. exfalso. induction a as [|y t IH]; simpl in *; [tauto|].
      destruct (entry_eqb y (proc, port)) eqn:E'; [discriminate|].
      destruct (list_remove (proc, port) t); [discriminate|].
      destruct Hin as [->|Hin]; [|auto].
      rewrite (proj2 (entry_eqb_eq _ _) eq_refl) in E'. discriminate.
    + rewrite (proj1 (count_occ_not_In entry_eq_dec a (proc, port)) Hno).
      reflexivity.
Qed.

Lemma count_occ_run_calls (cs : list call) (a : list entry) (e : entry) :
  count_occ entry_eq_dec (run_calls cs a) e =
  outstanding e cs (count_occ entry_eq_dec a e).
Proof.
  revert a. induction cs as [|c cs IH]; intros a; [reflexivity|].
  unfold run_calls in *. cbn [fold_left]. rewrite IH.
  destruct c as [proc port|proc port]; cbn [outstanding run_call]; f_equal.
  - unfold register_process. rewrite count_occ_app. cbn [count_occ].
    destruct (entry_eq_dec (proc, port) e); lia.
  - apply count_occ_unregister.
Qed.

Lemma fold_return_port (items : list entry) (pool : list Z) :
  fold_left (fun pl it => PortPool.return_port (snd it) pl) items pool =
  (pool ++ map snd items)%list.
Proof.
  revert pool. induction items as [|it items IH]; intros pool; simpl.
  - rewrite app_nil_r. reflexivity.
  - rewrite IH. unfold PortPool.return_port. rewrite <- app_assoc. reflexivity.
Qed.

(** C1: after any history of registrations and unregistrations, the drain
    returns every pair as many times as it has open registrations and no
    other pair, and leaves the registry empty, so a second drain gets
    nothing; unregistering a pair that is not in the registry, as after a
    drain, changes nothing; the cleanup kills each drained handle and gives
    each drained port back once. *)
Theorem registry_drain_exactly_once (cs : list call) :
  let active := run_calls cs [] in
  let items := fst (_snapshot_and_clear_active active) in
  let after := snd (_snapshot_and_clear_active active) in
  items = active
  /\ (forall e, count_occ entry_eq_dec items e = outstanding e cs 0)
  /\ after = []
  /\ _snapshot_and_clear_active after = ([], [])
  /\ (forall proc port, unregister_process proc port after = after)
  /\ (forall proc port a,
        ~ In (proc, port) a -> unregister_process proc port a = a)
  /\ (forall pool,
        cleanup_processes active pool =
        (map fst active, [], (pool ++ map snd active)%list)).
Proof.
  cbv zeta. simpl. repeat split.
  - intros e. apply (count_occ_run_calls cs [] e).
  - intros proc port a H. unfold unregister_process.
    rewrite list_remove_absent by assumption. reflexivity.
  - intros pool. unfold cleanup_processes. simpl.
    rewrite fold_return_port. reflexivity.
Qed.

Lemma registry_drain_exactly_once_witness :
  fst (_snapshot_and_clear_active
         (run_calls [Register 7%nat 10808; Register 8%nat 10809; Unregister 7%nat 10808;
                     Unregister 7%nat 10808; Register 9%nat 10810] [])) =
    [(8%nat, 10809); (9%nat, 10810)]
  /\ unregister_process 8%nat 10809
       (snd (_snapshot_and_clear_active
               (run_calls [Register 7%nat 10808; Register 8%nat 10809;
                           Unregister 7%nat 10808; Unregister 7%nat 10808;
                           Register 9%nat 10810] []))) = []
  /\ count_occ entry_eq_dec
       (fst (_snapshot_and_clear_active
               (run_calls [Register 7%nat 10808; Register 8%nat 10809;
                           Unregister 7%nat 10808; Unregister 7%nat 10808;
                           Register 9%nat 10810] []))) (7%nat, 10808) = O.
Proof.
  destruct (registry_drain_exactly_once
              [Register 7%nat 10808; Register 8%nat 10809; Unregister 7%nat 10808;
               Unregister 7%nat 10808; Register 9%nat 10810])
    as [Hitems [Hcount [Hafter [_ [Hun _]]]]].
  split; [rewrite Hitems; reflexivity|].
  split; [rewrite Hun, Hafter; reflexivity|].
  rewrite Hcount. reflexivity.
Defined.

End SignalsFacts.

Section PartialResultsFacts.
Import Signals.
Open Scope string_scope.

Lemma append_nil_r (s : string) : s ++ "" = s.
Proof. induction s as [|c s IH]; simpl; [|rewrite IH]; reflexivity. Qed.



Lemma split_newline_not_nil (s : string) : split_newline s <> [].
Proof.
  destruct s as [|c s]; simpl; [discriminate|].
  destruct (Ascii.eqb c (ascii_of_nat 10)); [discriminate|].
  destruct (split_newline s); discriminate.
Qed.

(** Splitting [d ++ rest] when [d] has no newline: [d] stays in front of
    the first line of [rest]. *)
Lemma split_newline_app (d rest : string) :
  occurs newline d = false ->
  split_newline (d ++ rest) =
  (d ++ hd "" (split_newline rest)) :: tl (split_newline rest).
Proof.
  induction d as [|c d IH]; intros H.
  - simpl. destruct (split_newline rest) eqn:E; [|reflexivity].
    exfalso. exact (split_newline_not_nil rest E).
  - cbn [occurs startswith newline] in H.
    apply orb_false_iff in H. destruct H as [Hc Hd].
    rewrite andb_true_r in Hc.
    assert (Hc' : Ascii.eqb c (ascii_of_nat 10) = false).
    { rewrite Ascii.eqb_sym. exact Hc. }
    change (String c d ++ rest) with (String c (d ++ rest)).
    cbn [split_newline]. rewrite Hc', (IH Hd). reflexivity.
Qed.






End PartialResultsFacts.

(** ** The order on TEXT values *)
Section TextOrder.

Lemma ascii_compare_refl (a : ascii) : Ascii.compare a a = Eq.
Proof. unfold Ascii.compare. apply N.compare_refl. Qed.

Lemma string_compare_refl (s : string) : String.compare s s = Eq.
Proof.
  induction s as [|c s IH]; simpl; [reflexivity|].
  rewrite ascii_compare_refl. exact IH.
Qed.

Lemma leb_refl (s : string) : String.leb s s = true.
Proof. unfold String.leb. rewrite string_compare_refl. reflexivity. Qed.

Lemma ltb_irrefl (s : string) : String.ltb s s = false.
Proof. unfold String.ltb. rewrite string_compare_refl. reflexivity. Qed.

Lemma ltb_negb_leb (a b : string) : String.ltb a b = negb (String.leb b a).
Proof.
  unfold String.ltb, String.leb. rewrite (String.compare_antisym a b).
  destruct (String.compare b a); reflexivity.
Qed.

(** What [String.compare] says of three strings fits together. *)
Lemma string_compare_trans (c : comparison) (x y z : string) :
  String.compare x y = c -> String.compare y z = c -> String.compare x z = c.
Proof.
  revert y z. induction x as [|a x IH]; intros [|b y] [|d z]; simpl;
    try congruence.
  unfold Ascii.compare.
  destruct (N.compare_spec (N_of_ascii a) (N_of_ascii b)) as [Hab|Hab|Hab];
    destruct (N.compare_spec (N_of_ascii b) (N_of_ascii d)) as [Hbd|Hbd|Hbd];
    intros H1 H2; try congruence.
  - rewrite Hab, Hbd, N.compare_refl. eauto.
  - rewrite Hab. rewrite (proj2 (N.compare_lt_iff _ _) Hbd). congruence.
  - rewrite Hab. rewrite (proj2 (N.compare_gt_iff _ _) Hbd). congruence.
  - rewrite <- Hbd. rewrite (proj2 (N.compare_lt_iff _ _) Hab). congruence.
  - rewrite (proj2 (N.compare_lt_iff _ _) (N.lt_trans _ _ _ Hab Hbd)).
    congruence.
  - rewrite <- Hbd. rewrite (proj2 (N.compare_gt_iff _ _) Hab). congruence.
  - rewrite (proj2 (N.compare_gt_iff _ _) (N.lt_trans _ _ _ Hbd Hab)).
    congruence.
Qed.

Lemma string_compare_eq (x y : string) : String.compare x y = Eq <-> x = y.
Proof.
  split; [apply String.compare_eq_iff | intros ->; apply string_compare_refl].
Qed.

Lemma leb_trans (x y z : string) :
  String.leb x y = true -> String.leb y z = true -> String.leb x z = true.
Proof.
  unfold String.leb.
  destruct (String.compare x y) eqn:Hxy; [| |discriminate];
    destruct (String.compare y z) eqn:Hyz; try discriminate; intros _ _.
  - rewrite (string_compare_trans Eq x y z Hxy Hyz). reflexivity.
  - apply string_compare_eq in Hxy. subst. rewrite Hyz. reflexivity.
  - apply string_compare_eq in Hyz. subst. rewrite Hxy. reflexivity.
  - rewrite (string_compare_trans Lt x y z Hxy Hyz). reflexivity.
Qed.

Lemma ltb_leb_trans (x y z : string) :
  String.ltb x y = true -> String.leb y z = true -> String.ltb x z = true.
Proof.
  unfold String.ltb, String.leb.
  destruct (String.compare x y) eqn:Hxy; try discriminate.
  destruct (String.compare y z) eqn:Hyz; try discriminate; intros _ _.
  - apply string_compare_eq in Hyz. subst. rewrite Hxy. reflexivity.
  - rewrite (string_compare_trans Lt x y z Hxy Hyz). reflexivity.
Qed.

Lemma ltb_leb (x y : string) : String.ltb x y = true -> String.leb x y = true.
Proof.
  unfold String.ltb, String.leb. destruct (String.compare x y); congruence.
Qed.

End TextOrder.

(** ** The notworkers store: upsert and existence check *)
Section UpsertFacts.
Import Store.
Open Scope string_scope.

Lemma is_empty_true (s : string) : is_empty s = true <-> s = "".
Proof. destruct s; simpl; split; congruence. Qed.

Lemma is_empty_false (s : string) : is_empty s = false <-> s <> "".
Proof. destruct s; simpl; split; congruence. Qed.

Lemma has_key_In (k : string) (rows : list row) :
  has_key k rows = true <-> In k (map key rows).
Proof.
  unfold has_key. rewrite existsb_exists, in_map_iff.
  split; intros [r [H1 H2]]; exists r.
  - apply String.eqb_eq in H2. auto.
  - rewrite String.eqb_eq. auto.
Qed.

Lemma has_key_not_In (k : string) (rows : list row) :
  has_key k rows = false <-> ~ In k (map key rows).
Proof.
  rewrite <- has_key_In. destruct (has_key k rows); split; congruence.
Qed.

Lemma has_key_app (k : string) (l1 l2 : list row) :
  has_key k (l1 ++ l2) = has_key k l1 || has_key k l2.
Proof. apply existsb_app. Qed.

(** The DO UPDATE touches no row of another key. *)
Lemma update_absent (k : string) (f : row -> row) (rows : list row) :
  has_key k rows = false ->
  map (fun x => if String.eqb (key x) k then f x else x) rows = rows.
Proof.
  induction rows as [|x rows IH]; simpl; intros H; [reflexivity|].
  apply orb_false_iff in H. destruct H as [H1 H2].
  rewrite H1, (IH H2). reflexivity.
Qed.

Lemma upsert_inserts (now : string) (conn : connection) (k r : string)
    (src seen : option string) :
  k <> "" -> has_key k (notworkers conn) = false ->
  upsert_notworker now conn k r src seen =
  let t := match seen with Some t => t | None => now end in
  mk_conn (notworkers conn ++
             [mk_row (sqlite_sequence conn + 1) k r t t 1 src])%list
          (sqlite_sequence conn + 1)
          (executed conn ++ [INSERT_ON_CONFLICT k r t src])%list.
Proof.
  intros Hk Habs. unfold upsert_notworker.
  rewrite (proj2 (is_empty_false k) Hk).
  unfold insert_on_conflict. simpl. rewrite Habs. reflexivity.
Qed.

Lemma upsert_updates (now : string) (conn : connection) (k r : string)
    (src seen : option string) :
  k <> "" -> has_key k (notworkers conn) = true ->
  upsert_notworker now conn k r src seen =
  let t := match seen with Some t => t | None => now end in
  mk_conn (map (fun x => if String.eqb (key x) k then do_update r t src x
                         else x) (notworkers conn))
          (sqlite_sequence conn + 1)
          (executed conn ++ [INSERT_ON_CONFLICT k r t src])%list.
Proof.
  intros Hk Hpres. unfold upsert_notworker.
  rewrite (proj2 (is_empty_false k) Hk).
  unfold insert_on_conflict. simpl. rewrite Hpres. reflexivity.
Qed.

Lemma upsert_updates_last (now : string) (conn : connection)
    (rows : list row) (x : row) (k r : string) (src seen : option string) :
  notworkers conn = (rows ++ [x])%list ->
  key x = k -> k <> "" -> has_key k rows = false ->
  notworkers (upsert_notworker now conn k r src seen) =
  (rows ++ [do_update r (match seen with Some t => t | None => now end)
                      src x])%list.
Proof.
  intros Hrows Hx Hk Habs. rewrite upsert_updates; [|assumption|].
  - simpl. rewrite Hrows, map_app, update_absent by assumption.
    simpl. rewrite Hx, String.eqb_refl. reflexivity.
  - rewrite Hrows, has_key_app. simpl.
    rewrite Hx, String.eqb_refl, orb_true_r. reflexivity.
Qed.

Lemma Forall2_map_fun {A B : Type} (f : A -> B) (l : list A) :
  Forall2 (fun a b => b = f a) l (map f l).
Proof. induction l; simpl; constructor; auto. Qed.

(** C2: what one [upsert_notworker] does to the table, case by case, and
    what three of them on a fresh key leave behind. *)
Theorem upsert_notworker_spec (now : string) (conn : connection)
    (k r : string) (src seen : option string) :
  let t := seen_or seen now in
  let conn' := upsert_notworker now conn k r src seen in
  (k = "" -> conn' = conn)
  /\ (k <> "" -> has_key k (notworkers conn) = false ->
      notworkers conn' =
      (notworkers conn ++ [mk_row (sqlite_sequence conn + 1) k r t t 1 src])%list)
  /\ (k <> "" -> has_key k (notworkers conn) = true ->
      Forall2
        (fun old new =>
           if String.eqb (key old) k
           then new = mk_row (id old) k r (first_seen old) t
                             (fail_count old + 1)
                             (match src with
                              | Some s => Some s
                              | None => source old
                              end)
           else new = old)
        (notworkers conn) (notworkers conn'))
  /\ (forall now2 now3 r2 r3 src2 src3 seen2 seen3,
      k <> "" -> has_key k (notworkers conn) = false ->
      notworkers
        (upsert_notworker now3
           (upsert_notworker now2 conn' k r2 src2 seen2) k r3 src3 seen3) =
      (notworkers conn ++
         [mk_row (sqlite_sequence conn + 1) k r3 t (seen_or seen3 now3) 3
                 (COALESCE src3 (COALESCE src2 src))])%list)
  /\ notworkers
       (upsert_notworker "2026-01-03T00:00:00Z"
          (upsert_notworker "2026-01-02T00:00:00Z"
             (upsert_notworker "2026-01-01T00:00:00Z" (init_db None)
                "k1" "a" None None)
             "k1" "b" None None)
          "k1" "c" None None) =
     [mk_row 1 "k1" "c" "2026-01-01T00:00:00Z" "2026-01-03T00:00:00Z" 3 None].
Proof.
  cbv zeta. unfold seen_or. repeat split.
  - intros ->. reflexivity.
  - intros Hk Habs. rewrite upsert_inserts by assumption. reflexivity.
  - intros Hk Hpres. rewrite upsert_updates by assumption. cbn [notworkers].
    eapply Forall2_impl; [|apply Forall2_map_fun].
    intros old new ->. destruct (String.eqb (key old) k) eqn:E; [|reflexivity].
    apply String.eqb_eq in E. subst k. unfold do_update, COALESCE.
    destruct src; reflexivity.
  - intros now2 now3 r2 r3 src2 src3 seen2 seen3 Hk Habs.
    assert (H1 : notworkers (upsert_notworker now conn k r src seen) =
                 (notworkers conn ++
                    [mk_row (sqlite_sequence conn + 1) k r
                       (match seen with Some t => t | None => now end)
                       (match seen with Some t => t | None => now end)
                       1 src])%list).
    { rewrite upsert_inserts by assumption. reflexivity. }
    pose proof (upsert_updates_last now2 _ _ _ k r2 src2 seen2
                  H1 eq_refl Hk Habs) as H2.
    pose proof (upsert_updates_last now3 _ _ _ k r3 src3 seen3
                  H2 eq_refl Hk Habs) as H3.
    rewrite H3. reflexivity.
Qed.

Lemma upsert_notworker_spec_witness :
  notworkers (upsert_notworker "2026-01-04T00:00:00Z" four_rows
                               "k9" "r9" (Some "run") None) =
    (notworkers four_rows ++
       [mk_row 5 "k9" "r9" "2026-01-04T00:00:00Z" "2026-01-04T00:00:00Z" 1
               (Some "run")])%list
  /\ notworkers (upsert_notworker "2026-01-05T00:00:00Z" four_rows
                                  "k1" "again" None None) =
     [mk_row 1 "k3" "r3" "2026-01-01T00:00:00Z" "2026-01-03T00:00:00Z" 2 None;
      mk_row 2 "k1" "again" "2026-01-01T00:00:00Z" "2026-01-05T00:00:00Z" 2 None;
      mk_row 3 "k4" "r4" "2026-01-02T00:00:00Z" "2026-01-04T00:00:00Z" 5 None;
      mk_row 4 "k2" "r2" "2026-01-02T00:00:00Z" "2026-01-02T00:00:00Z" 1 None]
  /\ upsert_notworker "2026-01-05T00:00:00Z" four_rows "" "r" None None =
     four_rows.
Proof.
  destruct (upsert_notworker_spec "2026-01-04T00:00:00Z" four_rows
              "k9" "r9" (Some "run") None) as [_ [Hnew _]].
  destruct (upsert_notworker_spec "2026-01-05T00:00:00Z" four_rows
              "k1" "again" None None) as [_ [_ [Hupd _]]].
  destruct (upsert_notworker_spec "2026-01-05T00:00:00Z" four_rows
              "" "r" None None) as [Hempty _].
  split; [apply Hnew; [discriminate|reflexivity]|].
  split; [|apply Hempty; reflexivity].
  assert (Hk : "k1" <> "") by discriminate.
  specialize (Hupd Hk eq_refl). cbv zeta in Hupd.
  destruct (notworkers (upsert_notworker "2026-01-05T00:00:00Z" four_rows
                          "k1" "again" None None)) as [|a [|b [|c [|d [|e l]]]]];
    unfold four_rows in Hupd; cbn [notworkers] in Hupd;
    repeat match goal with
           | H : Forall2 _ _ _ |- _ => inversion H; clear H; subst
           end.
  repeat match goal with
         | H : (if ?c then _ else _) |- _ =>
             let b := eval vm_compute in c in change c with b in H; cbv iota in H
         end.
  subst. reflexivity.
Defined.

(** C10: for the empty key [is_notworker] answers [False] and executes
    nothing on the connection; and [upsert_notworker] with the empty key
    leaves the connection as it was, so no row with the empty key is ever
    put into a table by it. *)
Theorem is_notworker_empty_key (conn : connection) :
  is_notworker conn "" = (false, conn)
  /\ executed (snd (is_notworker conn "")) = executed conn
  /\ notworkers (snd (is_notworker conn "")) = notworkers conn
  /\ (forall now r src seen, upsert_notworker now conn "" r src seen = conn)
  /\ (forall k, notworkers (snd (is_notworker conn k)) = notworkers conn)
  /\ (forall k, k <> "" ->
        fst (is_notworker conn k) = has_key k (notworkers conn)
        /\ executed (snd (is_notworker conn k)) =
           (executed conn ++ [SELECT_1_WHERE_KEY k])%list).
Proof.
  repeat split.
  - intros k. unfold is_notworker. destruct (is_empty k); reflexivity.
  - unfold is_notworker. rewrite (proj2 (is_empty_false k) H). reflexivity.
  - unfold is_notworker. rewrite (proj2 (is_empty_false k) H). reflexivity.
Qed.

End UpsertFacts.

(** ** ORDER BY *)
Section OrderBy.
Import Store.
Variable col : row -> string.

Lemma insert_by_perm (r : row) (l : list row) :
  Permutation (insert_by col r l) (r :: l).
Proof.
  induction l as [|x l IH]; simpl; [reflexivity|].
  destruct (String.leb (col r) (col x)); [reflexivity|].
  rewrite IH. apply perm_swap.
Qed.

Lemma order_by_perm (l : list row) : Permutation (order_by col l) l.
Proof.
  induction l as [|x l IH]; simpl; [reflexivity|].
  rewrite insert_by_perm, IH. reflexivity.
Qed.

Lemma insert_by_sorted (r : row) (l : list row) :
  StronglySorted (col_le col) l -> StronglySorted (col_le col) (insert_by col r l).
Proof.
  induction 1 as [|x l Hs IH Hx]; simpl.
  - constructor; constructor.
  - destruct (String.leb (col r) (col x)) eqn:E.
    + constructor; [constructor; assumption|].
      constructor; [exact E|].
      eapply Forall_impl; [|exact Hx].
      intros y Hy. unfold col_le in *. eapply leb_trans; eassumption.
    + constructor; [exact IH|].
      eapply Permutation_Forall; [symmetry; apply insert_by_perm|].
      constructor; [|exact Hx].
      unfold col_le. destruct (String.leb_total (col x) (col r)); congruence.
Qed.

Lemma order_by_sorted (l : list row) : StronglySorted (col_le col) (order_by col l).
Proof.
  induction l as [|x l IH]; simpl; [constructor|].
  apply insert_by_sorted. exact IH.
Qed.

(** In a sorted list, nothing among the first [n] comes after anything
    among the rest. *)
Lemma sorted_firstn_skipn (n : nat) (l : list row) :
  StronglySorted (col_le col) l ->
  forall d r, In d (firstn n l) -> In r (skipn n l) -> col_le col d r.
Proof.
  revert l. induction n as [|n IH]; intros l Hs d r Hd Hr.
  - simpl in Hd. contradiction.
  - destruct l as [|x l]; simpl in *; [contradiction|].
    inversion Hs as [|? ? Hs' Hx]; subst.
    destruct Hd as [<-|Hd].
    + rewrite Forall_forall in Hx. apply Hx.
      rewrite <- (firstn_skipn n l). apply in_or_app. right. exact Hr.
    + eapply IH; eassumption.
Qed.

Lemma order_by_length (l : list row) :
  List.length (order_by col l) = List.length l.
Proof. apply Permutation_length, order_by_perm. Qed.

End OrderBy.

(** ** The calendar: the rendering of a time keeps the order of time *)
Section CalendarFacts.
Import Store.

Lemma year_of_era_bounds (doe : Z) :
  0 <= doe <= 146096 ->
  0 <= year_of_era doe <= 399
  /\ year_start (year_of_era doe) <= doe <= year_start (year_of_era doe) + 365.
Proof.
  intros H. unfold year_of_era, year_start.
  Z.div_mod_to_equations; lia.
Qed.

Lemma year_start_mono (y y' : Z) :
  0 <= y < y' -> year_start y + 365 <= year_start y'.
Proof. intros H. unfold year_start. Z.div_mod_to_equations; lia. Qed.

Lemma year_of_era_mono (doe doe' : Z) :
  0 <= doe < doe' -> doe' <= 146096 -> year_of_era doe <= year_of_era doe'.
Proof.
  intros H H'.
  destruct (year_of_era_bounds doe) as [B1 B2]; [lia|].
  destruct (year_of_era_bounds doe') as [B1' B2']; [lia|].
  destruct (Z_le_gt_dec (year_of_era doe) (year_of_era doe')) as [|G]; [assumption|].
  pose proof (year_start_mono (year_of_era doe') (year_of_era doe)). lia.
Qed.

Lemma month_day_bounds (doy : Z) :
  0 <= doy <= 365 ->
  0 <= month_of_year doy <= 11 /\ 1 <= day_of_month doy <= 31.
Proof.
  intros H. unfold day_of_month, month_of_year. Z.div_mod_to_equations; lia.
Qed.

Lemma month_day_mono (doy doy' : Z) :
  0 <= doy < doy' -> doy' <= 365 ->
  month_of_year doy * 100 + day_of_month doy <
  month_of_year doy' * 100 + day_of_month doy'.
Proof.
  intros H H'. unfold day_of_month, month_of_year.
  Z.div_mod_to_equations; lia.
Qed.

Lemma era_split (z : Z) :
  0 <= z - z / 146097 * 146097 <= 146096.
Proof. Z.div_mod_to_equations; lia. Qed.

Lemma march_code_mono (z z' : Z) : z < z' -> march_code z < march_code z'.
Proof.
  intros H. unfold march_code. cbv zeta.
  set (a := z + 719468). set (a' := z' + 719468).
  assert (Ha : a < a') by (unfold a, a'; lia).
  clearbody a a'. clear H z z'.
  pose proof (era_split a) as D. pose proof (era_split a') as D'.
  assert (He : a / 146097 <= a' / 146097) by (apply Z.div_le_mono; lia).
  set (era := a / 146097) in *. set (era' := a' / 146097) in *.
  set (doe := a - era * 146097) in *. set (doe' := a' - era' * 146097) in *.
  destruct (year_of_era_bounds doe D) as [B1 B2].
  destruct (year_of_era_bounds doe' D') as [B1' B2'].
  set (yoe := year_of_era doe) in *. set (yoe' := year_of_era doe') in *.
  destruct (month_day_bounds (doe - year_start yoe)) as [M1 M2]; [lia|].
  destruct (month_day_bounds (doe' - year_start yoe')) as [M1' M2']; [lia|].
  destruct (Z.eq_dec era era') as [Ee|Ee].
  - assert (Hd : doe < doe') by (unfold doe, doe'; rewrite <- Ee; lia).
    assert (Hy : yoe <= yoe') by (apply year_of_era_mono; lia).
    destruct (Z.eq_dec yoe yoe') as [Ey|Ey].
    + pose proof (month_day_mono (doe - year_start yoe) (doe' - year_start yoe')) as Hm.
      rewrite <- Ey in *. rewrite <- Ee. lia.
    + rewrite <- Ee. lia.
  - lia.
Qed.

Lemma civil_from_days_code (z : Z) :
  exists y mp d,
    march_code z = (y * 100 + mp) * 100 + d
    /\ 0 <= mp <= 11 /\ 1 <= d <= 31
    /\ civil_from_days z =
       (if (if mp <? 10 then mp + 3 else mp - 9) <=? 2 then y + 1 else y,
        if mp <? 10 then mp + 3 else mp - 9, d).
Proof.
  unfold march_code, civil_from_days. cbv zeta.
  set (a := z + 719468).
  pose proof (era_split a) as D.
  set (era := a / 146097) in *. set (doe := a - era * 146097) in *.
  destruct (year_of_era_bounds doe D) as [B1 B2].
  fold (year_of_era doe). set (yoe := year_of_era doe) in *.
  fold (year_start yoe).
  destruct (month_day_bounds (doe - year_start yoe)) as [M1 M2]; [lia|].
  exists (yoe + era * 400), (month_of_year (doe - year_start yoe)),
         (day_of_month (doe - year_start yoe)).
  repeat split; try lia.
Qed.

Lemma lex_of_code (y m d y' m' d' : Z) :
  0 <= m <= 99 -> 0 <= d <= 99 -> 0 <= m' <= 99 -> 0 <= d' <= 99 ->
  ((y * 100 + m) * 100 + d < (y' * 100 + m') * 100 + d' <->
   y < y' \/ (y = y' /\ (m < m' \/ (m = m' /\ d < d')))).
Proof. intros. lia. Qed.

Lemma civil_from_days_mono (z z' : Z) :
  z < z' -> date_code (civil_from_days z) < date_code (civil_from_days z').
Proof.
  intros H. apply march_code_mono in H.
  destruct (civil_from_days_code z) as [y [mp [d [Hc [Hm [Hd ->]]]]]].
  destruct (civil_from_days_code z') as [y' [mp' [d' [Hc' [Hm' [Hd' ->]]]]]].
  rewrite Hc, Hc' in H. unfold date_code.
  apply lex_of_code in H; try lia.
  destruct (Z.ltb_spec mp 10) as [L|L]; destruct (Z.ltb_spec mp' 10) as [L'|L'].
  - destruct (Z.leb_spec (mp + 3) 2); [lia|].
    destruct (Z.leb_spec (mp' + 3) 2); [lia|].
    apply lex_of_code; lia.
  - destruct (Z.leb_spec (mp + 3) 2); [lia|].
    destruct (Z.leb_spec (mp' - 9) 2); [|lia].
    apply lex_of_code; lia.
  - destruct (Z.leb_spec (mp - 9) 2); [|lia].
    destruct (Z.leb_spec (mp' + 3) 2); [lia|].
    apply lex_of_code; lia.
  - destruct (Z.leb_spec (mp - 9) 2); [|lia].
    destruct (Z.leb_spec (mp' - 9) 2); [|lia].
    apply lex_of_code; lia.
Qed.

Lemma civil_from_days_bounds (z : Z) :
  let '(y, m, d) := civil_from_days z in 1 <= m <= 12 /\ 1 <= d <= 31.
Proof.
  destruct (civil_from_days_code z) as [y [mp [d [Hc [Hm [Hd ->]]]]]].
  destruct (Z.ltb_spec mp 10); lia.
Qed.

Lemma time_code_bounds (s : Z) :
  0 <= s < 86400 ->
  0 <= s / 3600 <= 23 /\ 0 <= s / 60 mod 60 <= 59 /\ 0 <= s mod 60 <= 59.
Proof. intros H. Z.div_mod_to_equations; lia. Qed.

Lemma time_code_mono (s s' : Z) :
  0 <= s < s' -> s' < 86400 -> time_code s < time_code s'.
Proof. intros H H'. unfold time_code. Z.div_mod_to_equations; lia. Qed.

Lemma stamp_code_mono (t t' : Z) : t < t' -> stamp_code t < stamp_code t'.
Proof.
  intros H. unfold stamp_code, SECONDS_PER_DAY.
  assert (Hs : 0 <= t mod 86400 < 86400) by (apply Z.mod_pos_bound; lia).
  assert (Hs' : 0 <= t' mod 86400 < 86400) by (apply Z.mod_pos_bound; lia).
  pose proof (time_code_bounds _ Hs) as B. pose proof (time_code_bounds _ Hs') as B'.
  assert (Hd : t / 86400 <= t' / 86400) by (apply Z.div_le_mono; lia).
  destruct (Z.eq_dec (t / 86400) (t' / 86400)) as [E|E].
  - rewrite E.
    assert (t mod 86400 < t' mod 86400).
    { rewrite !Z.mod_eq by lia. rewrite E. lia. }
    pose proof (time_code_mono (t mod 86400) (t' mod 86400)). lia.
  - pose proof (civil_from_days_mono (t / 86400) (t' / 86400)).
    unfold time_code. lia.
Qed.

Lemma digit_compare (a b : Z) :
  Ascii.compare (digit a) (digit b) = (a mod 10 ?= b mod 10).
Proof.
  unfold digit, Ascii.compare.
  pose proof (Z.mod_pos_bound a 10 ltac:(lia)).
  pose proof (Z.mod_pos_bound b 10 ltac:(lia)).
  rewrite !N_ascii_embedding by lia.
  destruct (N.compare_spec (48 + Z.to_N (a mod 10)) (48 + Z.to_N (b mod 10)));
    destruct (Z.compare_spec (a mod 10) (b mod 10)); try reflexivity; lia.
Qed.

Lemma compare_two_digits (a b : Z) (r r' : string) :
  String.compare (two_digits a ++ r) (two_digits b ++ r') =
  match a mod 100 ?= b mod 100 with
  | Eq => String.compare r r'
  | c => c
  end.
Proof.
  unfold two_digits. cbn [append String.compare].
  rewrite !digit_compare.
  destruct (Z.compare_spec ((a / 10) mod 10) ((b / 10) mod 10));
    destruct (Z.compare_spec (a mod 10) (b mod 10));
    destruct (Z.compare_spec (a mod 100) (b mod 100));
    try reflexivity; exfalso; Z.div_mod_to_equations; lia.
Qed.

Lemma four_digits_app (a : Z) (r : string) :
  (four_digits a ++ r = two_digits (a / 100) ++ (two_digits a ++ r))%string.
Proof.
  unfold four_digits, two_digits. cbn [append].
  rewrite Z.div_div by lia. reflexivity.
Qed.

Lemma compare_separator (c : ascii) (r r' : string) :
  String.compare (String c r) (String c r') = String.compare r r'.
Proof.
  cbn [String.compare]. unfold Ascii.compare. rewrite N.compare_refl. reflexivity.
Qed.

Lemma year_in_range (t : Z) :
  YEAR_1000 <= t <= DATETIME_MAX ->
  let '(y, m, d) := civil_from_days (t / SECONDS_PER_DAY) in
  1000 <= y <= 9999 /\ 1 <= m <= 12 /\ 1 <= d <= 31.
Proof.
  intros H. unfold YEAR_1000, DATETIME_MAX, SECONDS_PER_DAY in *.
  pose proof (civil_from_days_bounds (t / 86400)) as B.
  assert (L : -354285 <= t / 86400 <= 2932896) by (Z.div_mod_to_equations; lia).
  assert (L1 : date_code (civil_from_days (-354285)) <= date_code (civil_from_days (t / 86400))).
  { destruct (Z.eq_dec (-354285) (t / 86400)) as [<-|]; [lia|].
    pose proof (civil_from_days_mono (-354285) (t / 86400)). lia. }
  assert (L2 : date_code (civil_from_days (t / 86400)) <= date_code (civil_from_days 2932896)).
  { destruct (Z.eq_dec (t / 86400) 2932896) as [->|]; [lia|].
    pose proof (civil_from_days_mono (t / 86400) 2932896). lia. }
  change (date_code (civil_from_days (-354285))) with 10000101 in L1.
  change (date_code (civil_from_days 2932896)) with 99991231 in L2.
  destruct (civil_from_days (t / 86400)) as [[y m] d].
  unfold date_code in *. lia.
Qed.

Lemma strftime_utc_mono (t t' : Z) :
  YEAR_1000 <= t -> t < t' -> t' <= DATETIME_MAX ->
  String.ltb (strftime_utc t) (strftime_utc t') = true.
Proof.
  intros H1 H2 H3.
  pose proof (stamp_code_mono t t' H2) as Hc.
  pose proof (year_in_range t ltac:(lia)) as Y.
  pose proof (year_in_range t' ltac:(lia)) as Y'.
  unfold stamp_code, time_code in Hc. unfold String.ltb, strftime_utc.
  assert (Hs : 0 <= t mod SECONDS_PER_DAY < 86400) by (apply Z.mod_pos_bound; reflexivity).
  assert (Hs' : 0 <= t' mod SECONDS_PER_DAY < 86400) by (apply Z.mod_pos_bound; reflexivity).
  pose proof (time_code_bounds _ Hs) as B. pose proof (time_code_bounds _ Hs') as B'.
  destruct (civil_from_days (t / SECONDS_PER_DAY)) as [[y m] d].
  destruct (civil_from_days (t' / SECONDS_PER_DAY)) as [[y' m'] d'].
  unfold date_code in Hc.
  set (s := t mod SECONDS_PER_DAY) in *. set (s' := t' mod SECONDS_PER_DAY) in *.
  set (h := s / 3600) in *. set (h' := s' / 3600) in *.
  set (mi := s / 60 mod 60) in *. set (mi' := s' / 60 mod 60) in *.
  set (sec := s mod 60) in *. set (sec' := s' mod 60) in *.
  clearbody h h' mi mi' sec sec'.
  rewrite !four_digits_app.
  repeat (rewrite compare_two_digits
          || (change ("-" ++ ?x)%string with (String "-" x); rewrite compare_separator)
          || (change ("T" ++ ?x)%string with (String "T" x); rewrite compare_separator)
          || (change (":" ++ ?x)%string with (String ":" x); rewrite compare_separator)).
  repeat match goal with
         | |- context [?u ?= ?v] => destruct (Z.compare_spec u v)
         end; try reflexivity; exfalso; Z.div_mod_to_equations; lia.
Qed.

(** Between the years 1000 and 9999 the rendered texts are in the order,
    byte by byte, in which their times are. *)
Lemma strftime_utc_order (t c : Z) :
  YEAR_1000 <= t <= DATETIME_MAX -> YEAR_1000 <= c <= DATETIME_MAX ->
  (String.ltb (strftime_utc t) (strftime_utc c) = true <-> t < c).
Proof.
  intros Ht Hc. split.
  - intros H. destruct (Z_lt_ge_dec t c) as [|G]; [assumption|].
    exfalso. destruct (Z.eq_dec t c) as [->|Hne].
    + rewrite ltb_irrefl in H. discriminate.
    + assert (Hlt : c < t) by lia.
      apply strftime_utc_mono in Hlt; [|lia|lia].
      apply ltb_leb in Hlt. rewrite ltb_negb_leb, Hlt in H. discriminate.
  - intros H. apply strftime_utc_mono; lia.
Qed.

End CalendarFacts.

(** ** The notworkers store: expiry and pruning *)
Section RetentionFacts.
Import Store.
Open Scope string_scope.

Lemma mem_In (i : Z) (l : list Z) : mem i l = true <-> In i l.
Proof.
  unfold mem. rewrite existsb_exists. split.
  - intros [x [Hx E]]. apply Z.eqb_eq in E. subst. exact Hx.
  - intros H. exists i. split; [exact H | apply Z.eqb_refl].
Qed.

Lemma mem_not_In (i : Z) (l : list Z) : mem i l = false <-> ~ In i l.
Proof. rewrite <- mem_In. destruct (mem i l); split; congruence. Qed.

Lemma NoDup_app_disjoint {A : Type} (l1 l2 : list A) :
  NoDup (l1 ++ l2) -> forall a, In a l1 -> ~ In a l2.
Proof.
  induction l1 as [|x l1 IH]; simpl; intros H a Hin; [contradiction|].
  inversion H as [|? ? Hx Hrest]; subst.
  destruct Hin as [->|Hin]; [|exact (IH Hrest a Hin)].
  intros Ha. apply Hx. apply in_or_app. right. exact Ha.
Qed.

(** Deleting the rows whose id is among the ids of the first [n] rows of
    a permutation of the table leaves the other rows of the permutation. *)
Lemma delete_by_id (rows sorted : list row) (n : nat) :
  NoDup (map id rows) -> Permutation sorted rows ->
  Permutation
    (filter (fun r => negb (mem (id r) (map id (firstn n sorted)))) rows)
    (skipn n sorted).
Proof.
  intros Hids Hperm.
  assert (Hsids : NoDup (map id sorted)).
  { eapply Permutation_NoDup; [|exact Hids].
    apply Permutation_map. symmetry. exact Hperm. }
  rewrite <- (firstn_skipn n sorted) in Hsids at 1.
  rewrite map_app in Hsids.
  apply NoDup_Permutation.
  - apply NoDup_filter. eapply NoDup_map_inv. exact Hids.
  - apply NoDup_map_inv with (f := id).
    eapply NoDup_app_remove_l. exact Hsids.
  - intros x. rewrite filter_In, negb_true_iff, mem_not_In. split.
    + intros [Hx Hno].
      apply (Permutation_in _ (Permutation_sym Hperm)) in Hx.
      rewrite <- (firstn_skipn n sorted) in Hx.
      apply in_app_or in Hx. destruct Hx as [Hx|Hx]; [|exact Hx].
      exfalso. apply Hno. apply in_map. exact Hx.
    + intros Hx. split.
      * apply (Permutation_in _ Hperm).
        rewrite <- (firstn_skipn n sorted). apply in_or_app. right. exact Hx.
      * intros Hin.
        apply (NoDup_app_disjoint _ _ Hsids (id x) Hin).
        apply in_map. exact Hx.
Qed.

Lemma expire_old_positive (strftime : Z -> string) (utcnow : Z)
    (conn : connection) (max_age_days : Z) :
  0 < max_age_days ->
  expire_old strftime utcnow conn max_age_days =
  (mk_conn
     (filter (fun r => negb (String.ltb (last_seen r)
                (strftime (utcnow - SECONDS_PER_DAY * max_age_days))))
             (notworkers conn))
     (sqlite_sequence conn)
     (executed conn ++
        [DELETE_WHERE_LAST_SEEN_LT
           (strftime (utcnow - SECONDS_PER_DAY * max_age_days))])%list,
   Z.of_nat (List.length (notworkers conn))
   - Z.of_nat (List.length
       (filter (fun r => negb (String.ltb (last_seen r)
                  (strftime (utcnow - SECONDS_PER_DAY * max_age_days))))
               (notworkers conn)))).
Proof.
  intros H. unfold expire_old.
  rewrite (proj2 (Z.leb_gt _ _) H). reflexivity.
Qed.

Lemma expire_old_checked_raises (strftime : Z -> string) (utcnow : Z)
    (conn : connection) (max_age_days : Z) :
  0 < max_age_days ->
  (expire_old_checked strftime utcnow conn max_age_days = Raises <->
   TIMEDELTA_MAX_DAYS < max_age_days
   \/ utcnow - SECONDS_PER_DAY * max_age_days < DATETIME_MIN)
  /\ (expire_old_checked strftime utcnow conn max_age_days <> Raises ->
      expire_old_checked strftime utcnow conn max_age_days =
      Returns (expire_old strftime utcnow conn max_age_days)).
Proof.
  intros H. unfold expire_old_checked.
  rewrite (proj2 (Z.leb_gt _ _) H).
  destruct (Z.ltb_spec TIMEDELTA_MAX_DAYS max_age_days) as [L1|L1].
  { split; [split; auto|congruence]. }
  destruct (Z.ltb_spec (utcnow - SECONDS_PER_DAY * max_age_days) DATETIME_MIN)
    as [L2|L2].
  { split; [split; auto|congruence]. }
  split; [|reflexivity].
  split; [discriminate|]. intros [G|G]; lia.
Qed.

Lemma expire_old_checked_returns (strftime : Z -> string) (utcnow : Z)
    (conn : connection) (max_age_days : Z) :
  0 < max_age_days ->
  YEAR_1000 <= utcnow - SECONDS_PER_DAY * max_age_days ->
  utcnow <= DATETIME_MAX ->
  expire_old_checked strftime utcnow conn max_age_days =
  Returns (expire_old strftime utcnow conn max_age_days).
Proof.
  intros H Hc Hn.
  apply (expire_old_checked_raises strftime utcnow conn max_age_days H).
  intros Hr. apply (expire_old_checked_raises strftime utcnow conn _ H) in Hr.
  unfold TIMEDELTA_MAX_DAYS, DATETIME_MIN, DATETIME_MAX, YEAR_1000,
    SECONDS_PER_DAY in *.
  lia.
Qed.

(** C7, as the code has it.  For a positive [max_age_days] for which the
    cutoff [utcnow - max_age_days] days is not before the year 1000,
    [expire_old] returns, having deleted the rows whose [last_seen] is,
    byte by byte, below the rendering of the cutoff, and returns their
    number; for a row whose [last_seen] renders a time between the years
    1000 and 9999, as the timestamps the store writes do, that is: the row
    goes exactly when its time is before the cutoff, and a row at the
    cutoff stays.  With 30 days, a row seen 31 days ago goes and a row seen
    29 days ago stays.  For a [max_age_days] of 0 or less the call returns
    0 and the connection is untouched.  For a positive [max_age_days] the
    call raises exactly when [max_age_days] is more than a [timedelta]
    takes or the cutoff is before the year 1. *)
Theorem expire_old_spec (utcnow : Z) (conn : connection) (max_age_days : Z) :
  let rows := notworkers conn in
  let cutoff := utcnow - SECONDS_PER_DAY * max_age_days in
  (0 < max_age_days -> YEAR_1000 <= cutoff -> utcnow <= DATETIME_MAX ->
   exists conn' n,
     expire_old_checked strftime_utc utcnow conn max_age_days =
       Returns (conn', n)
     /\ notworkers conn' =
        filter (fun r => negb (String.ltb (last_seen r) (strftime_utc cutoff)))
               rows
     /\ (forall r t,
           In r rows -> last_seen r = strftime_utc t ->
           YEAR_1000 <= t <= DATETIME_MAX ->
           (In r (notworkers conn') <-> cutoff <= t))
     /\ n = Z.of_nat (List.length rows)
            - Z.of_nat (List.length (notworkers conn'))
     /\ n = Z.of_nat
              (List.length
                 (filter (fun r => String.ltb (last_seen r)
                                              (strftime_utc cutoff)) rows)))
  /\ (max_age_days <= 0 ->
      forall strftime,
        expire_old_checked strftime utcnow conn max_age_days =
        Returns (conn, 0))
  /\ (max_age_days = 30 ->
      YEAR_1000 + SECONDS_PER_DAY * 31 <= utcnow -> utcnow <= DATETIME_MAX ->
      exists conn' n,
        expire_old_checked strftime_utc utcnow conn max_age_days =
          Returns (conn', n)
        /\ forall r, In r rows ->
             (last_seen r = strftime_utc (utcnow - SECONDS_PER_DAY * 31) ->
              ~ In r (notworkers conn'))
             /\ (last_seen r = strftime_utc (utcnow - SECONDS_PER_DAY * 29) ->
                 In r (notworkers conn')))
  /\ (0 < max_age_days ->
      forall strftime,
        (expire_old_checked strftime utcnow conn max_age_days = Raises <->
         TIMEDELTA_MAX_DAYS < max_age_days \/ cutoff < DATETIME_MIN)
        /\ (expire_old_checked strftime utcnow conn max_age_days <> Raises ->
            expire_old_checked strftime utcnow conn max_age_days =
            Returns (expire_old strftime utcnow conn max_age_days))).
Proof.
  cbv zeta.
  assert (Hmain : forall days,
            0 < days -> YEAR_1000 <= utcnow - SECONDS_PER_DAY * days ->
            utcnow <= DATETIME_MAX ->
            exists conn' n,
              expire_old_checked strftime_utc utcnow conn days =
                Returns (conn', n)
              /\ notworkers conn' =
                 filter (fun r => negb (String.ltb (last_seen r)
                            (strftime_utc (utcnow - SECONDS_PER_DAY * days))))
                        (notworkers conn)
              /\ (forall r t,
                    In r (notworkers conn) -> last_seen r = strftime_utc t ->
                    YEAR_1000 <= t <= DATETIME_MAX ->
                    (In r (notworkers conn') <->
                     utcnow - SECONDS_PER_DAY * days <= t))
              /\ n = Z.of_nat (List.length (notworkers conn))
                     - Z.of_nat (List.length (notworkers conn'))
              /\ n = Z.of_nat
                       (List.length
                          (filter (fun r => String.ltb (last_seen r)
                             (strftime_utc (utcnow - SECONDS_PER_DAY * days)))
                             (notworkers conn)))).
  { intros days H Hc Hn.
    rewrite (expire_old_checked_returns strftime_utc utcnow conn days H Hc Hn).
    rewrite (expire_old_positive strftime_utc utcnow conn days H).
    eexists. eexists. split; [reflexivity|]. cbn [notworkers].
    split; [reflexivity|]. split; [|split; [reflexivity|]].
    - intros r t Hr Hls Ht. rewrite filter_In, negb_true_iff, Hls.
      assert (Hcut : YEAR_1000 <= utcnow - SECONDS_PER_DAY * days
                     <= DATETIME_MAX)
        by (unfold SECONDS_PER_DAY in *; lia).
      pose proof (strftime_utc_order t _ Ht Hcut) as Ho.
      destruct (String.ltb (strftime_utc t)
                  (strftime_utc (utcnow - SECONDS_PER_DAY * days))).
      + split; [intros [_ E]; discriminate|].
        intros G. pose proof (proj1 Ho eq_refl). lia.
      + split; [|tauto]. intros _.
        destruct (Z_lt_ge_dec t (utcnow - SECONDS_PER_DAY * days)) as [L|G];
          [|lia].
        apply Ho in L. discriminate.
    - rewrite <- (filter_length
                   (fun r => String.ltb (last_seen r)
                      (strftime_utc (utcnow - SECONDS_PER_DAY * days)))
                   (notworkers conn)) at 1.
      lia. }
  split; [exact (Hmain max_age_days)|]. split; [|split].
  - intros H strftime. unfold expire_old_checked.
    rewrite (proj2 (Z.leb_le _ _) H). reflexivity.
  - intros -> Hlow Hn.
    destruct (Hmain 30) as [conn' [n [Hrun [_ [Hiff _]]]]];
      [lia|unfold SECONDS_PER_DAY in *; lia|exact Hn|].
    exists conn', n. split; [exact Hrun|].
    unfold DATETIME_MAX, YEAR_1000, SECONDS_PER_DAY in *.
    intros r Hr. split.
    + intros Hls Hkept. apply (Hiff r _ Hr Hls) in Hkept; lia.
    + intros Hls. apply (Hiff r _ Hr Hls); lia.
  - intros H strftime. apply expire_old_checked_raises. exact H.
Qed.

Lemma expire_old_spec_witness :
  exists conn' n,
    expire_old_checked strftime_utc 1762200000 two_ages 30 = Returns (conn', n)
    /\ n = 1
    /\ ~ In (mk_row 1 "old" "o" "2025-10-03T20:00:00Z" "2025-10-03T20:00:00Z"
                    1 None) (notworkers conn')
    /\ In (mk_row 2 "new" "n" "2025-10-05T20:00:00Z" "2025-10-05T20:00:00Z"
                  1 None) (notworkers conn').
Proof.
  destruct (expire_old_spec 1762200000 two_ages 30) as [H1 [_ [H3 _]]].
  destruct (H1 eq_refl) as [conn' [n [Hrun [_ [_ [_ Hn]]]]]];
    [vm_compute; discriminate|vm_compute; discriminate|].
  destruct (H3 eq_refl) as [conn3 [n3 [Hrun3 Hrows]]];
    [vm_compute; discriminate|vm_compute; discriminate|].
  rewrite Hrun in Hrun3. injection Hrun3 as <- <-.
  exists conn', n. split; [exact Hrun|].
  split; [rewrite Hn; reflexivity|]. split.
  - apply (Hrows _ (or_introl eq_refl)). reflexivity.
  - apply (Hrows _ (or_intror (or_introl eq_refl))). reflexivity.
Defined.

(** C7 as the specification words it fails: for a [max_age_days] that
    puts the cutoff before the year 1 the call raises OverflowError; it
    deletes nothing and returns no count. *)
Lemma expire_old_counterexample :
  expire_old_checked strftime_utc 1762200000 two_ages 1000000 = Raises
  /\ Z.ltb 0 1000000 = true
  /\ strftime_utc 1762200000 = "2025-11-03T20:00:00Z".
Proof. vm_compute. repeat split. Qed.

(** C6: with [max_rows] positive and more rows than that in the table,
    [prune_to_max] deletes the first [total - max_rows] rows in the order
    of [last_seen], none of which was seen later than any row it keeps,
    leaves [max_rows] rows and returns the number deleted; otherwise it
    deletes nothing and returns 0. *)
Theorem prune_to_max_spec (conn : connection) (max_rows : Z) :
  NoDup (map id (notworkers conn)) ->
  let rows := notworkers conn in
  let total := Z.of_nat (List.length rows) in
  let deleted :=
    firstn (Z.to_nat (total - max_rows)) (order_by last_seen rows) in
  let conn' := fst (prune_to_max conn max_rows) in
  let n := snd (prune_to_max conn max_rows) in
  (0 < max_rows -> max_rows < total ->
     Z.of_nat (List.length (notworkers conn')) = max_rows
     /\ n = total - max_rows
     /\ Z.of_nat (List.length deleted) = n
     /\ Permutation rows (deleted ++ notworkers conn')
     /\ notworkers conn' =
        filter (fun r => negb (mem (id r) (map id deleted))) rows
     /\ (forall d r, In d deleted -> In r (notworkers conn') ->
                     String.leb (last_seen d) (last_seen r) = true))
  /\ (max_rows <= 0 \/ total <= max_rows ->
      notworkers conn' = rows /\ n = 0)
  /\ prune_to_max four_rows 2 =
     (mk_conn
        [mk_row 1 "k3" "r3" "2026-01-01T00:00:00Z" "2026-01-03T00:00:00Z" 2 None;
         mk_row 3 "k4" "r4" "2026-01-02T00:00:00Z" "2026-01-04T00:00:00Z" 5 None]
        4 [SELECT_COUNT; DELETE_OLDEST 2], 2).
Proof.
  intros Hids. cbv zeta.
  set (rows := notworkers conn).
  set (total := Z.of_nat (List.length rows)).
  set (k := Z.to_nat (total - max_rows)).
  set (sorted := order_by last_seen rows).
  split; [|split; [|reflexivity]].
  - intros Hpos Hmore.
    assert (Hrun : prune_to_max conn max_rows =
              (mk_conn
                 (filter (fun r => negb (mem (id r) (map id (firstn k sorted))))
                         rows)
                 (sqlite_sequence conn)
                 ((executed conn ++ [SELECT_COUNT]) ++
                    [DELETE_OLDEST (total - max_rows)])%list,
               total -
               Z.of_nat (List.length
                 (filter (fun r => negb (mem (id r) (map id (firstn k sorted))))
                         rows)))).
    { unfold prune_to_max. rewrite (proj2 (Z.leb_gt _ _) Hpos). cbn [ran notworkers].
      fold rows. fold total. rewrite (proj2 (Z.leb_gt _ _) Hmore). reflexivity. }
    rewrite Hrun. cbn [fst snd notworkers].
    pose proof (delete_by_id rows sorted k Hids (order_by_perm last_seen rows))
      as Hkept.
    assert (Hlen : Z.of_nat (List.length
               (filter (fun r => negb (mem (id r) (map id (firstn k sorted))))
                       rows)) = max_rows).
    { rewrite (Permutation_length Hkept), length_skipn.
      unfold sorted. rewrite order_by_length. unfold k, total in *. lia. }
    split; [exact Hlen|]. split; [lia|]. split; [|split; [|split]].
    + rewrite Hlen, length_firstn. unfold sorted. rewrite order_by_length.
      unfold k, total. lia.
    + rewrite Hkept, firstn_skipn. symmetry. apply order_by_perm.
    + reflexivity.
    + intros d r Hd Hr.
      apply (sorted_firstn_skipn last_seen k sorted
               (order_by_sorted last_seen rows) d r Hd).
      apply (Permutation_in _ Hkept). exact Hr.
  - intros Hno. unfold prune_to_max.
    destruct (Z.leb max_rows 0) eqn:E1; [split; reflexivity|].
    cbn [ran notworkers]. fold rows. fold total.
    destruct (Z.leb total max_rows) eqn:E2; [split; reflexivity|].
    apply Z.leb_gt in E1. apply Z.leb_gt in E2. lia.
Qed.

Lemma prune_to_max_spec_witness :
  NoDup (map id (notworkers four_rows))
  /\ Z.of_nat (List.length (notworkers (fst (prune_to_max four_rows 2)))) = 2
  /\ snd (prune_to_max four_rows 2) = 2
  /\ map key (notworkers (fst (prune_to_max four_rows 2))) = ["k3"; "k4"].
Proof.
  assert (Hids : NoDup (map id (notworkers four_rows))).
  { simpl. repeat constructor; simpl; intuition discriminate. }
  split; [exact Hids|].
  destruct (prune_to_max_spec four_rows 2 Hids) as [H1 [_ H3]].
  destruct (H1 eq_refl eq_refl) as [Hlen [Hn _]].
  split; [exact Hlen|]. split; [exact Hn|].
  rewrite H3. reflexivity.
Defined.

End RetentionFacts.

(** ** The invariant of the store *)
Section InvariantFacts.
Import Store.
Open Scope string_scope.

Lemma same_key_same_row (l : list row) (a b : row) :
  NoDup (map key l) -> In a l -> In b l -> key a = key b -> a = b.
Proof.
  induction l as [|x l IH]; simpl; intros Hnd Ha Hb Hk; [contradiction|].
  inversion Hnd as [|? ? Hx Hl]; subst.
  destruct Ha as [->|Ha]; destruct Hb as [->|Hb]; auto.
  - exfalso. apply Hx. rewrite Hk. apply in_map. exact Hb.
  - exfalso. apply Hx. rewrite <- Hk. apply in_map. exact Ha.
Qed.

Lemma NoDup_map_filter {B : Type} (f : row -> B) (p : row -> bool)
    (l : list row) :
  NoDup (map f l) -> NoDup (map f (filter p l)).
Proof.
  induction l as [|x l IH]; simpl; intros H; [constructor|].
  inversion H as [|? ? Hx Hl]; subst.
  destruct (p x); simpl; [|auto].
  constructor; [|auto].
  intros Hin. apply Hx. apply in_map_iff in Hin.
  destruct Hin as [y [Hy Hin]]. apply filter_In in Hin.
  rewrite <- Hy. apply in_map. tauto.
Qed.

Lemma Forall_filter_keep {A : Type} (P : A -> Prop) (p : A -> bool)
    (l : list A) :
  Forall P l -> Forall P (filter p l).
Proof.
  rewrite !Forall_forall. intros H x Hx. apply filter_In in Hx. apply H. tauto.
Qed.

(** A DELETE keeps the keys unique, lowers no count and keeps the ids in
    order. *)
Lemma delete_keeps_keys (conn conn' : connection) (p : row -> bool) :
  notworkers conn' = filter p (notworkers conn) ->
  keys_unique conn -> keys_unique conn'.
Proof.
  unfold keys_unique. intros -> Hk. apply NoDup_map_filter. exact Hk.
Qed.

Lemma delete_keeps_counts (conn conn' : connection) (p : row -> bool) :
  notworkers conn' = filter p (notworkers conn) ->
  keys_unique conn -> fail_count_kept conn conn'.
Proof.
  intros Hrows Hk r r' Hin Hin' Hkey. rewrite Hrows in Hin'.
  apply filter_In in Hin'. destruct Hin' as [Hin' _].
  rewrite (same_key_same_row _ r r' Hk Hin Hin' Hkey). lia.
Qed.

Lemma delete_keeps_ids (conn conn' : connection) (p : row -> bool) :
  notworkers conn' = filter p (notworkers conn) ->
  sqlite_sequence conn' = sqlite_sequence conn ->
  ids_ok conn -> ids_ok conn'.
Proof.
  unfold ids_ok. intros -> -> [Hi Hs].
  split; [apply NoDup_map_filter; exact Hi|].
  apply Forall_filter_keep. exact Hs.
Qed.

Lemma expire_old_deletes (strftime : Z -> string) (utcnow days : Z)
    (conn : connection) :
  exists p,
    notworkers (fst (expire_old strftime utcnow conn days)) =
      filter p (notworkers conn)
    /\ sqlite_sequence (fst (expire_old strftime utcnow conn days)) =
       sqlite_sequence conn.
Proof.
  unfold expire_old. destruct (Z.leb days 0).
  - exists (fun _ => true). simpl. rewrite filter_true. auto.
  - eexists. simpl. split; reflexivity.
Qed.

Lemma prune_to_max_deletes (max_rows : Z) (conn : connection) :
  exists p,
    notworkers (fst (prune_to_max conn max_rows)) = filter p (notworkers conn)
    /\ sqlite_sequence (fst (prune_to_max conn max_rows)) =
       sqlite_sequence conn.
Proof.
  unfold prune_to_max. destruct (Z.leb max_rows 0).
  - exists (fun _ => true). simpl. rewrite filter_true. auto.
  - cbn [ran notworkers sqlite_sequence].
    destruct (Z.leb (Z.of_nat (List.length (notworkers conn))) max_rows).
    + exists (fun _ => true). simpl. rewrite filter_true. auto.
    + eexists. simpl. split; reflexivity.
Qed.

Lemma key_do_update (r t : string) (src : option string) (k : string)
    (rows : list row) :
  map key (map (fun x => if String.eqb (key x) k then do_update r t src x
                         else x) rows) = map key rows.
Proof.
  rewrite map_map. apply map_ext. intros x.
  destruct (String.eqb (key x) k); reflexivity.
Qed.

Lemma id_do_update (r t : string) (src : option string) (k : string)
    (rows : list row) :
  map id (map (fun x => if String.eqb (key x) k then do_update r t src x
                        else x) rows) = map id rows.
Proof.
  rewrite map_map. apply map_ext. intros x.
  destruct (String.eqb (key x) k); reflexivity.
Qed.

(** An upsert keeps the keys unique, the counts at least 1 and the ids
    in order, whatever its observation time ... *)
Lemma upsert_keeps_keys (now : string) (conn : connection)
    (k r : string) (src seen : option string) :
  keys_unique conn -> keys_unique (upsert_notworker now conn k r src seen).
Proof.
  unfold keys_unique. intros Hk.
  destruct (is_empty k) eqn:Ek.
  { unfold upsert_notworker. rewrite Ek. exact Hk. }
  apply is_empty_false in Ek.
  destruct (has_key k (notworkers conn)) eqn:Hhas.
  - rewrite upsert_updates by assumption. cbv zeta. cbn [notworkers].
    rewrite key_do_update. exact Hk.
  - rewrite upsert_inserts by assumption. cbv zeta. cbn [notworkers].
    rewrite map_app. simpl.
    apply NoDup_app; [assumption|repeat constructor; simpl; tauto|].
    intros a Ha [<-|[]]. apply has_key_not_In in Hhas. tauto.
Qed.

Lemma upsert_keeps_counts (now : string) (conn : connection)
    (k r : string) (src seen : option string) :
  counts_ok conn -> counts_ok (upsert_notworker now conn k r src seen).
Proof.
  unfold counts_ok. intros Hc.
  destruct (is_empty k) eqn:Ek.
  { unfold upsert_notworker. rewrite Ek. exact Hc. }
  apply is_empty_false in Ek.
  destruct (has_key k (notworkers conn)) eqn:Hhas.
  - rewrite upsert_updates by assumption. cbv zeta. cbn [notworkers].
    rewrite Forall_forall in *. intros x Hx.
    apply in_map_iff in Hx. destruct Hx as [y [Hy Hin]].
    specialize (Hc y Hin).
    destruct (String.eqb (key y) k); subst x; simpl; lia.
  - rewrite upsert_inserts by assumption. cbv zeta. cbn [notworkers].
    apply Forall_app. split; [assumption|].
    repeat constructor; simpl; lia.
Qed.

Lemma upsert_keeps_ids (now : string) (conn : connection)
    (k r : string) (src seen : option string) :
  ids_ok conn -> ids_ok (upsert_notworker now conn k r src seen).
Proof.
  unfold ids_ok. intros [Hi Hs].
  destruct (is_empty k) eqn:Ek.
  { unfold upsert_notworker. rewrite Ek. split; assumption. }
  apply is_empty_false in Ek.
  destruct (has_key k (notworkers conn)) eqn:Hhas.
  - rewrite upsert_updates by assumption. cbv zeta.
    cbn [notworkers sqlite_sequence]. rewrite id_do_update.
    split; [exact Hi|].
    rewrite Forall_forall in *. intros x Hx.
    apply in_map_iff in Hx. destruct Hx as [y [Hy Hin]].
    specialize (Hs y Hin).
    destruct (String.eqb (key y) k); subst x; simpl; lia.
  - rewrite upsert_inserts by assumption. cbv zeta.
    cbn [notworkers sqlite_sequence]. rewrite map_app. simpl. split.
    + apply NoDup_app; [assumption|repeat constructor; simpl; tauto|].
      intros a Ha [<-|[]]. apply in_map_iff in Ha.
      destruct Ha as [y [Hy Hin]]. rewrite Forall_forall in Hs.
      specialize (Hs y Hin). lia.
    + apply Forall_app. split.
      * eapply Forall_impl; [|exact Hs]. simpl. intros a Ha. lia.
      * repeat constructor; simpl; lia.
Qed.

(** ... and keeps [first_seen] not after [last_seen] when it is in time
    order. *)
Lemma upsert_keeps_times (now : string) (conn : connection)
    (k r : string) (src seen : option string) :
  times_ok conn -> in_time_order (Upsert now k r src seen) conn ->
  times_ok (upsert_notworker now conn k r src seen).
Proof.
  unfold times_ok. intros Hr Htime. simpl in Htime.
  destruct (is_empty k) eqn:Ek.
  { unfold upsert_notworker. rewrite Ek. exact Hr. }
  apply is_empty_false in Ek.
  destruct (has_key k (notworkers conn)) eqn:Hhas.
  - rewrite upsert_updates by assumption. cbv zeta. cbn [notworkers].
    rewrite Forall_forall in *. intros x Hx.
    apply in_map_iff in Hx. destruct Hx as [y [Hy Hin]].
    destruct (String.eqb (key y) k) eqn:E; subst x; [|auto].
    apply String.eqb_eq in E. simpl. apply (Htime y Hin E).
  - rewrite upsert_inserts by assumption. cbv zeta. cbn [notworkers].
    apply Forall_app. split; [assumption|].
    repeat constructor; simpl. apply leb_refl.
Qed.

(** After an upsert every row of before is still there under its key,
    with its [first_seen] and with no smaller count ... *)
Lemma upsert_grows (now : string) (conn : connection)
    (k r : string) (src seen : option string) (x : row) :
  In x (notworkers conn) ->
  exists x', In x' (notworkers (upsert_notworker now conn k r src seen))
             /\ key x' = key x /\ first_seen x' = first_seen x
             /\ fail_count x <= fail_count x'.
Proof.
  intros Hx. destruct (is_empty k) eqn:Ek.
  { unfold upsert_notworker. rewrite Ek. exists x. repeat split; auto; lia. }
  apply is_empty_false in Ek.
  destruct (has_key k (notworkers conn)) eqn:Hhas.
  - rewrite upsert_updates by assumption. cbv zeta. cbn [notworkers].
    eexists. split; [apply in_map; exact Hx|].
    cbv beta. destruct (String.eqb (key x) k); simpl; repeat split; lia.
  - rewrite upsert_inserts by assumption. cbv zeta. cbn [notworkers].
    exists x. repeat split; [apply in_or_app; auto | lia].
Qed.

(** ... and every row of another key was there before. *)
Lemma upsert_other_keys (now : string) (conn : connection)
    (k r : string) (src seen : option string) (x' : row) :
  In x' (notworkers (upsert_notworker now conn k r src seen)) ->
  key x' <> k -> In x' (notworkers conn).
Proof.
  intros Hx' Hne. destruct (is_empty k) eqn:Ek.
  { unfold upsert_notworker in Hx'. rewrite Ek in Hx'. exact Hx'. }
  apply is_empty_false in Ek.
  destruct (has_key k (notworkers conn)) eqn:Hhas.
  - rewrite upsert_updates in Hx' by assumption. cbn [notworkers] in Hx'.
    apply in_map_iff in Hx'. destruct Hx' as [y [Hy Hin]].
    destruct (String.eqb (key y) k) eqn:E; subst x'; [|exact Hin].
    apply String.eqb_eq in E. simpl in Hne. congruence.
  - rewrite upsert_inserts in Hx' by assumption. cbn [notworkers] in Hx'.
    apply in_app_or in Hx'. destruct Hx' as [Hin|[<-|[]]]; [exact Hin|].
    simpl in Hne. congruence.
Qed.

Lemma rows_grow_kept (before after : connection) :
  NoDup (map key (notworkers after)) -> rows_grow before after ->
  fail_count_kept before after.
Proof.
  intros Hnd Hg r r' Hr Hr' Hk.
  destruct (Hg r Hr) as [x' [Hx' [Hkx [_ Hc]]]].
  rewrite <- (same_key_same_row _ x' r' Hnd Hx' Hr'); [exact Hc|congruence].
Qed.

(** A property of the table that upserts keep is kept by the migration
    loop. *)
Lemma migrate_loop_keeps (P : connection -> Prop) (clock : nat -> string)
    (src : string) (items : list (string * string)) :
  (forall st c, P c -> P (ran st c)) ->
  (forall now c k r s seen, P c -> P (upsert_notworker now c k r s seen)) ->
  forall (i : nat) (conn : connection) (inserted updated : Z),
  P conn -> P (fst (migrate_loop clock src i items conn inserted updated)).
Proof.
  intros Hran Hup.
  induction items as [|[norm full] rest IH]; intros i conn inserted updated HP.
  - exact HP.
  - cbn [migrate_loop].
    destruct (has_key norm (notworkers (ran (SELECT_1_WHERE_KEY norm) conn)));
      apply IH; apply Hup; apply Hran; exact HP.
Qed.

Lemma migrate_loop_grows (clock : nat -> string) (src : string)
    (items : list (string * string)) :
  forall (i : nat) (conn : connection) (inserted updated : Z),
  rows_grow conn (fst (migrate_loop clock src i items conn inserted updated)).
Proof.
  induction items as [|[norm full] rest IH]; intros i conn inserted updated.
  - intros x Hx. exists x. repeat split; auto; lia.
  - cbn [migrate_loop].
    set (conn1 := ran (SELECT_1_WHERE_KEY norm) conn).
    set (conn2 := upsert_notworker (clock i) conn1 norm full (Some src) None).
    assert (Hg2 : rows_grow conn conn2).
    { intros x Hx. apply (upsert_grows (clock i) conn1). exact Hx. }
    assert (Hboth : forall ins upd,
              rows_grow conn
                (fst (migrate_loop clock src (S i) rest conn2 ins upd))).
    { intros ins upd x Hx.
      destruct (Hg2 x Hx) as [x2 [Hx2 [Hk2 [Hf2 Hc2]]]].
      destruct (IH (S i) conn2 ins upd x2 Hx2) as [x3 [Hx3 [Hk3 [Hf3 Hc3]]]].
      exists x3. repeat split; [exact Hx3|congruence|congruence|lia]. }
    destruct (has_key norm (notworkers conn1)); apply Hboth.
Qed.

Lemma migrate_loop_keeps_times (clock : nat -> string) (src : string)
    (items : list (string * string)) :
  forall (i : nat) (conn : connection) (inserted updated : Z),
  times_ok conn -> NoDup (map fst items) ->
  (forall j nf, nth_error items j = Some nf ->
     forall r, In r (notworkers conn) -> key r = fst nf ->
               String.leb (first_seen r) (clock (i + j)%nat) = true) ->
  times_ok (fst (migrate_loop clock src i items conn inserted updated)).
Proof.
  induction items as [|[norm full] rest IH];
    intros i conn inserted updated Hok Hnd Htime.
  - exact Hok.
  - cbn [migrate_loop].
    set (conn1 := ran (SELECT_1_WHERE_KEY norm) conn).
    set (conn2 := upsert_notworker (clock i) conn1 norm full (Some src) None).
    inversion Hnd as [|? ? Hnorm Hrest]; subst.
    assert (Hok2 : times_ok conn2).
    { apply upsert_keeps_times; [exact Hok|].
      simpl. intros r Hr Hk.
      specialize (Htime O (norm, full) eq_refl r Hr Hk).
      rewrite Nat.add_0_r in Htime. exact Htime. }
    assert (Htime2 : forall j nf, nth_error rest j = Some nf ->
              forall r, In r (notworkers conn2) -> key r = fst nf ->
                        String.leb (first_seen r) (clock (S i + j)%nat) = true).
    { intros j nf Hj r Hr Hk.
      assert (Hne : key r <> norm).
      { rewrite Hk. intros E. apply Hnorm. rewrite <- E.
        apply in_map. eapply nth_error_In. exact Hj. }
      apply upsert_other_keys in Hr; [|exact Hne].
      specialize (Htime (S j) nf Hj r Hr Hk).
      rewrite Nat.add_succ_r in Htime. exact Htime. }
    destruct (has_key norm (notworkers conn1));
      apply IH; assumption.
Qed.

Lemma new_store_ok :
  keys_unique (init_db None) /\ counts_ok (init_db None)
  /\ times_ok (init_db None) /\ ids_ok (init_db None).
Proof.
  unfold keys_unique, counts_ok, times_ok, ids_ok. simpl.
  repeat split; constructor.
Qed.

(** Whatever the observation times: the keys stay unique and no count of
    a key that stays goes down ... *)
Lemma operation_keeps_keys (op : operation) (conn : connection) :
  keys_unique conn ->
  keys_unique (apply_operation op conn)
  /\ fail_count_kept conn (apply_operation op conn).
Proof.
  intros Hk.
  destruct op as [now k r src seen|strftime utcnow days|max_rows
                  |clock items src]; cbn [apply_operation].
  - pose proof (upsert_keeps_keys now conn k r src seen Hk) as Hk'.
    split; [exact Hk'|].
    apply rows_grow_kept; [exact Hk'|].
    intros x Hx. apply upsert_grows. exact Hx.
  - destruct (expire_old_deletes strftime utcnow days conn) as [p [H1 _]].
    split; [exact (delete_keeps_keys _ _ p H1 Hk)|].
    exact (delete_keeps_counts _ _ p H1 Hk).
  - destruct (prune_to_max_deletes max_rows conn) as [p [H1 _]].
    split; [exact (delete_keeps_keys _ _ p H1 Hk)|].
    exact (delete_keeps_counts _ _ p H1 Hk).
  - assert (Hk' : keys_unique (fst (migrate_loop clock src O items conn 0 0))).
    { apply (migrate_loop_keeps keys_unique); [auto| |exact Hk].
      intros. apply upsert_keeps_keys. assumption. }
    split; [exact Hk'|].
    apply rows_grow_kept; [exact Hk'|apply migrate_loop_grows].
Qed.

(** ... every count stays at least 1 ... *)
Lemma operation_keeps_counts (op : operation) (conn : connection) :
  counts_ok conn -> counts_ok (apply_operation op conn).
Proof.
  intros Hc.
  destruct op as [now k r src seen|strftime utcnow days|max_rows
                  |clock items src]; cbn [apply_operation].
  - apply upsert_keeps_counts. exact Hc.
  - destruct (expire_old_deletes strftime utcnow days conn) as [p [H1 _]].
    unfold counts_ok. rewrite H1. apply Forall_filter_keep. exact Hc.
  - destruct (prune_to_max_deletes max_rows conn) as [p [H1 _]].
    unfold counts_ok. rewrite H1. apply Forall_filter_keep. exact Hc.
  - apply (migrate_loop_keeps counts_ok); [auto| |exact Hc].
    intros. apply upsert_keeps_counts. assumption.
Qed.

(** ... and the rowids stay unique and below the counter. *)
Lemma operation_keeps_ids (op : operation) (conn : connection) :
  ids_ok conn -> ids_ok (apply_operation op conn).
Proof.
  intros Hi.
  destruct op as [now k r src seen|strftime utcnow days|max_rows
                  |clock items src]; cbn [apply_operation].
  - apply upsert_keeps_ids. exact Hi.
  - destruct (expire_old_deletes strftime utcnow days conn) as [p [H1 H2]].
    exact (delete_keeps_ids _ _ p H1 H2 Hi).
  - destruct (prune_to_max_deletes max_rows conn) as [p [H1 H2]].
    exact (delete_keeps_ids _ _ p H1 H2 Hi).
  - apply (migrate_loop_keeps ids_ok); [auto| |exact Hi].
    intros. apply upsert_keeps_ids. assumption.
Qed.

(** In time order no [first_seen] gets after its [last_seen]. *)
Lemma operation_keeps_times (op : operation) (conn : connection) :
  times_ok conn -> in_time_order op conn ->
  times_ok (apply_operation op conn).
Proof.
  intros Ht Htime.
  destruct op as [now k r src seen|strftime utcnow days|max_rows
                  |clock items src]; cbn [apply_operation].
  - apply upsert_keeps_times; assumption.
  - destruct (expire_old_deletes strftime utcnow days conn) as [p [H1 _]].
    unfold times_ok. rewrite H1. apply Forall_filter_keep. exact Ht.
  - destruct (prune_to_max_deletes max_rows conn) as [p [H1 _]].
    unfold times_ok. rewrite H1. apply Forall_filter_keep. exact Ht.
  - destruct Htime as [Hnd Hle].
    apply migrate_loop_keeps_times; assumption.
Qed.

Lemma reached_ok (conn : connection) :
  reached conn -> keys_unique conn /\ counts_ok conn /\ ids_ok conn.
Proof.
  induction 1 as [|op conn Hr [IH1 [IH2 IH3]]].
  - pose proof new_store_ok. tauto.
  - split; [apply operation_keeps_keys; exact IH1|].
    split; [apply operation_keeps_counts; exact IH2|].
    apply operation_keeps_ids; exact IH3.
Qed.

Lemma reachable_reached (conn : connection) : reachable conn -> reached conn.
Proof. induction 1; constructor; assumption. Qed.

Lemma reachable_times_ok (conn : connection) :
  reachable conn -> times_ok conn.
Proof.
  induction 1 as [|op conn Hr IH Ht]; [apply new_store_ok|].
  apply operation_keeps_times; assumption.
Qed.

(** C5, as the code has it.  A new store has unique keys, counts of at
    least 1 and no [first_seen] after its [last_seen].  Upsert, expire,
    prune and migrate, whatever their arguments, keep the keys unique, keep
    every count at least 1 and lower no count of a key that stays: so this
    holds in every store reached from a new one.  They keep [first_seen]
    not after [last_seen] when the observation time of each upsert is not
    before the [first_seen] of the row it updates: so that holds in every
    store reached in time order. *)
Theorem store_invariant_preserved :
  (keys_unique (init_db None) /\ counts_ok (init_db None)
   /\ times_ok (init_db None))
  /\ (forall op conn,
        keys_unique conn ->
        keys_unique (apply_operation op conn)
        /\ fail_count_kept conn (apply_operation op conn))
  /\ (forall op conn,
        counts_ok conn -> counts_ok (apply_operation op conn))
  /\ (forall op conn,
        times_ok conn -> in_time_order op conn ->
        times_ok (apply_operation op conn))
  /\ (forall conn, reached conn -> keys_unique conn /\ counts_ok conn)
  /\ (forall conn,
        reachable conn -> keys_unique conn /\ counts_ok conn /\ times_ok conn).
Proof.
  split; [pose proof new_store_ok; tauto|].
  split; [exact operation_keeps_keys|].
  split; [exact operation_keeps_counts|].
  split; [exact operation_keeps_times|].
  split.
  - intros conn H. pose proof (reached_ok conn H). tauto.
  - intros conn H. pose proof (reached_ok conn (reachable_reached conn H)).
    pose proof (reachable_times_ok conn H). tauto.
Qed.

Lemma store_invariant_preserved_witness :
  (let conn :=
     apply_operation
       (Upsert "2026-01-06T00:00:00Z" "k1" "again" None
               (Some "2026-01-01T00:00:00Z"))
       (apply_operation
          (Upsert "2026-01-05T00:00:00Z" "k1" "first" (Some "run") None)
          (init_db None)) in
   keys_unique conn /\ counts_ok conn)
  /\ times_ok
       (apply_operation
          (Upsert "2026-01-06T00:00:00Z" "k1" "again" None None)
          (apply_operation
             (Upsert "2026-01-05T00:00:00Z" "k1" "first" (Some "run") None)
             (init_db None))).
Proof.
  destruct store_invariant_preserved
    as [[Hk0 [Hc0 Ht0]] [Hkeys [Hcounts [Htimes _]]]].
  split.
  - cbv zeta. split.
    + apply Hkeys. apply Hkeys. exact Hk0.
    + apply Hcounts. apply Hcounts. exact Hc0.
  - apply Htimes; [|simpl; intros r [<-|[]] _; reflexivity].
    apply Htimes; [exact Ht0|]. simpl. intros r [].
Defined.

(** C5 as the specification words it fails: an upsert whose [seen_at] is
    before the row's [first_seen] leaves [last_seen] before [first_seen];
    and a key that was deleted starts again at count 1. *)
Lemma first_seen_after_last_seen_counterexample :
  notworkers
    (upsert_notworker "2026-01-03T00:00:00Z"
       (upsert_notworker "2026-01-02T00:00:00Z" (init_db None)
          "k" "a" None None)
       "k" "b" None (Some "2026-01-01T00:00:00Z")) =
  [mk_row 1 "k" "b" "2026-01-02T00:00:00Z" "2026-01-01T00:00:00Z" 2 None]
  /\ String.leb "2026-01-02T00:00:00Z" "2026-01-01T00:00:00Z" = false
  /\ map fail_count
       (notworkers
          (upsert_notworker "2020-01-02T00:00:00Z"
             (upsert_notworker "2020-01-01T00:00:00Z" (init_db None)
                "k" "a" None None)
             "k" "a" None None)) = [2]
  /\ map fail_count
       (notworkers
          (upsert_notworker "2025-11-03T20:00:00Z"
             (fst (expire_old strftime_utc 1762200000
                     (upsert_notworker "2020-01-02T00:00:00Z"
                        (upsert_notworker "2020-01-01T00:00:00Z" (init_db None)
                           "k" "a" None None)
                        "k" "a" None None)
                     30))
             "k" "a" None None)) = [1].
Proof. repeat split; vm_compute; reflexivity. Qed.

End InvariantFacts.

(** ** Migration and export *)
Section MigrationFacts.
Import Store.
Open Scope string_scope.







Lemma chomp_closed (r : string) :
  endswith_newline r = true -> chomp r ++ Signals.newline = r.
Proof.
  induction r as [|c r IH]; [discriminate|].
  destruct r as [|c' r'].
  - simpl. destruct (Ascii.eqb c (ascii_of_nat 10)) eqn:E; [|discriminate].
    apply Ascii.eqb_eq in E. subst. reflexivity.
  - intros H. change (chomp (String c (String c' r')))
      with (String c (chomp (String c' r'))).
    change (String c (chomp (String c' r')) ++ Signals.newline)
      with (String c (chomp (String c' r') ++ Signals.newline)).
    rewrite (IH H). reflexivity.
Qed.

Lemma chomp_open (r : string) : endswith_newline r = false -> chomp r = r.
Proof.
  induction r as [|c r IH]; [reflexivity|].
  destruct r as [|c' r'].
  - simpl. intros ->. reflexivity.
  - intros H. change (chomp (String c (String c' r')))
      with (String c (chomp (String c' r'))).
    rewrite (IH H). reflexivity.
Qed.

Lemma export_line_chomp (r : string) :
  export_line r = chomp r ++ Signals.newline.
Proof.
  unfold export_line. destruct (endswith_newline r) eqn:E.
  - symmetry. apply chomp_closed. exact E.
  - rewrite (chomp_open r E). reflexivity.
Qed.

Lemma append_assoc_string (a b c : string) : (a ++ b) ++ c = a ++ (b ++ c).
Proof. induction a as [|x a IH]; simpl; [|rewrite IH]; reflexivity. Qed.

Lemma concat_empty_cons (x : string) (xs : list string) :
  String.concat "" (x :: xs) = x ++ String.concat "" xs.
Proof.
  destruct xs as [|y ys]; simpl; [|reflexivity].
  symmetry. apply append_nil_r.
Qed.

Lemma split_newline_lines (bodies : list string) :
  Forall (fun b => Signals.occurs Signals.newline b = false) bodies ->
  Signals.split_newline
    (String.concat "" (map (fun b => b ++ Signals.newline) bodies)) =
  (bodies ++ [""])%list.
Proof.
  induction 1 as [|b bodies Hb Hrest IH]; [reflexivity|].
  cbn [map]. rewrite concat_empty_cons.
  rewrite append_assoc_string.
  rewrite split_newline_app by exact Hb.
  change (Signals.newline ++ ?s) with (String (ascii_of_nat 10) s).
  cbn [Signals.split_newline]. rewrite Ascii.eqb_refl. cbn [hd tl].
  rewrite append_nil_r, IH. reflexivity.
Qed.

Lemma migrate_from_flat_some (clock : nat -> string)
    (items : list (string * string)) (db_file : option database)
    (src : string) :
  items <> [] ->
  migrate_from_flat clock (Some items) db_file src =
  (Some (close (fst (migrate_loop clock src O items (init_db db_file) 0 0))),
   snd (migrate_loop clock src O items (init_db db_file) 0 0)).
Proof.
  intros Hne. unfold migrate_from_flat.
  destruct items as [|nf rest]; [congruence|].
  destruct (migrate_loop clock src 0 (nf :: rest) (init_db db_file) 0 0).
  reflexivity.
Qed.




(** What the export writes after the two migrations of the example: the
    five lines in the order of their keys. *)
Example export_after_migration :
  snd (fst (export_to_flat
    (fst (migrate_from_flat (fun _ => "2026-01-02T00:00:00Z")
            (Some five_descriptors)
            (fst (migrate_from_flat (fun _ => "2026-01-01T00:00:00Z")
                    (Some five_descriptors) None "flat")) "flat")))) =
  Some (String.concat Signals.newline
          ["vless://a@h1:443#one"; "vless://b@h2:443#two";
           "vless://c@h3:443#three"; "vless://d@h4:443#four";
           "vless://e@h5:443#five"; ""]).
Proof. vm_compute. reflexivity. Qed.

(** With nothing to migrate the database file is not even created. *)
Lemma migrate_nothing (clock : nat -> string) (db_file : option database)
    (src : string) :
  migrate_from_flat clock None db_file src = (db_file, (0, 0))
  /\ migrate_from_flat clock (Some []) db_file src = (db_file, (0, 0)).
Proof. split; reflexivity. Qed.

End MigrationFacts.

(* ================================================================== *)
(** * Part III: further properties of the same code *)
(* ================================================================== *)

(** ** The port pool under the workers' calls *)
Section PoolDisciplineFacts.
Import PortPool.

Lemma take_port_some (pool pool' : list Z) (p : Z) :
  take_port pool = (Some p, pool') -> pool = (pool' ++ [p])%list.
Proof.
  destruct pool as [|x l] using rev_ind; [discriminate|].
  rewrite take_port_snoc. intros H. inversion H. reflexivity.
Qed.

Lemma take_port_none (pool pool' : list Z) :
  take_port pool = (None, pool') -> pool = [] /\ pool' = [].
Proof.
  destruct pool as [|x l] using rev_ind.
  - intros H. inversion H. auto.
  - rewrite take_port_snoc. discriminate.
Qed.

Lemma remove_one_perm (p : Z) (l : list Z) :
  In p l -> Permutation l (p :: remove_one p l).
Proof.
  induction l as [|x t IH]; simpl; intros H; [contradiction|].
  destruct (Z.eqb x p) eqn:E.
  - apply Z.eqb_eq in E. subst. reflexivity.
  - destruct H as [->|H]; [rewrite Z.eqb_refl in E; discriminate|].
    rewrite (IH H) at 1. apply perm_swap.
Qed.

(** One disciplined call moves a port between the pool and the workers
    and loses or invents none. *)
Lemma pool_step_conserves (pool held : list Z) (c : pool_call) :
  match c with Take => True | Return p => In p held end ->
  Permutation (fst (pool_step (pool, held) c) ++ snd (pool_step (pool, held) c))
              (pool ++ held).
Proof.
  destruct c as [|p]; simpl.
  - intros _. destruct (take_port pool) as [[q|] pool'] eqn:E; simpl.
    + apply take_port_some in E. subst pool.
      rewrite <- app_assoc. reflexivity.
    + apply take_port_none in E. destruct E as [-> ->]. reflexivity.
  - intros Hin. unfold return_port. rewrite <- app_assoc. simpl.
    apply Permutation_app_head. symmetry. apply remove_one_perm. exact Hin.
Qed.

Lemma pool_run_conserves (cs : list pool_call) :
  forall st, disciplined st cs ->
  Permutation (fst (pool_run cs st) ++ snd (pool_run cs st)) (fst st ++ snd st).
Proof.
  induction cs as [|c cs IH]; intros [pool held] H; [reflexivity|].
  destruct H as [Hc Hrest]. unfold pool_run in *. cbn [fold_left].
  rewrite (IH _ Hrest).
  destruct (pool_step (pool, held) c) as [pool1 held1] eqn:E.
  pose proof (pool_step_conserves pool held c Hc) as Hp.
  rewrite E in Hp. exact Hp.
Qed.

(** X1: [take_port] and [return_port] undo each other on the last
    element of the pool: the port given back is the next one taken, a port
    taken and given back leaves the pool as it was, and [take_port] answers
    [None] on the empty pool only. *)
Theorem take_return_round_trip (pool : list Z) (p : Z) :
  take_port (return_port p pool) = (Some p, pool)
  /\ (forall pool', take_port pool = (Some p, pool') ->
                    return_port p pool' = pool)
  /\ (fst (take_port pool) = None <-> pool = []).
Proof.
  split; [apply take_port_snoc|]. split.
  - intros pool' H. apply take_port_some in H. subst. reflexivity.
  - split.
    + destruct (take_port pool) as [[q|] pool'] eqn:E; [discriminate|].
      intros _. apply take_port_none in E. tauto.
    + intros ->. reflexivity.
Qed.

(** X2: while every port given back is one a worker holds, the free ports
    and the held ports together are at all times exactly the ports the
    pool started with; if those were distinct, no port is ever free and
    held, or held twice. *)
Theorem pool_conservation (pool0 : list Z) (cs : list pool_call) :
  disciplined (pool0, []) cs ->
  Permutation (fst (pool_run cs (pool0, [])) ++ snd (pool_run cs (pool0, [])))
              pool0
  /\ (NoDup pool0 ->
      NoDup (fst (pool_run cs (pool0, [])) ++ snd (pool_run cs (pool0, [])))).
Proof.
  intros H. pose proof (pool_run_conserves cs (pool0, []) H) as Hp.
  cbn [fst snd] in Hp. rewrite app_nil_r in Hp.
  split; [exact Hp|].
  intros Hnd. eapply Permutation_NoDup; [symmetry; exact Hp|exact Hnd].
Qed.

Lemma pool_conservation_witness :
  disciplined ([10808; 10809; 10810], [])
              [Take; Take; Return 10810; Take; Take; Take; Return 10809]
  /\ Permutation
       (fst (pool_run [Take; Take; Return 10810; Take; Take; Take;
                       Return 10809] ([10808; 10809; 10810], [])) ++
        snd (pool_run [Take; Take; Return 10810; Take; Take; Take;
                       Return 10809] ([10808; 10809; 10810], [])))
       [10808; 10809; 10810].
Proof.
  assert (H : disciplined ([10808; 10809; 10810], [])
                [Take; Take; Return 10810; Take; Take; Take; Return 10809]).
  { simpl. tauto. }
  split; [exact H|].
  exact (proj1 (pool_conservation [10808; 10809; 10810] _ H)).
Defined.

(** X3: [return_port] does not look at the pool: giving a port back adds
    one occurrence of it, so the pool stays free of repeats exactly when
    the port was not in it, and a port given back twice is handed out
    twice; [take_port] never creates a repeat. *)
Theorem return_port_repeats (pool : list Z) (p : Z) :
  count_occ Z.eq_dec (return_port p pool) p = S (count_occ Z.eq_dec pool p)
  /\ (NoDup (return_port p pool) <-> NoDup pool /\ ~ In p pool)
  /\ take_ports 2 (return_port p (return_port p pool)) =
     ([Some p; Some p], pool)
  /\ (NoDup pool -> NoDup (snd (take_port pool))).
Proof.
  unfold return_port. split; [|split; [|split]].
  - rewrite count_occ_app. simpl.
    destruct (Z.eq_dec p p); [lia|congruence].
  - split.
    + intros H. split; [eapply NoDup_app_remove_r; exact H|].
      intros Hin.
      apply (NoDup_app_disjoint _ _ H p Hin). left. reflexivity.
    + intros [H1 H2]. apply NoDup_app; [exact H1|repeat constructor; simpl; tauto|].
      intros a Ha [<-|[]]. exact (H2 Ha).
  - cbn [take_ports]. rewrite !take_port_snoc. reflexivity.
  - intros Hnd. destruct (take_port pool) as [[q|] pool'] eqn:E; simpl.
    + apply take_port_some in E. subst.
      eapply NoDup_app_remove_r. exact Hnd.
    + apply take_port_none in E. destruct E as [_ ->]. constructor.
Qed.

(** X4: from the pool the module starts with, under the same discipline,
    every port a worker holds lies in the configured range and is not above
    65535, and no two workers hold the same port. *)
Theorem held_ports_in_range (BASE_PORT MAX_WORKERS : Z) (cs : list pool_call) :
  disciplined (_port_pool BASE_PORT MAX_WORKERS, []) cs ->
  (forall p, In p (snd (pool_run cs (_port_pool BASE_PORT MAX_WORKERS, []))) ->
             BASE_PORT <= p <= 65535 /\ p < BASE_PORT + MAX_WORKERS)
  /\ NoDup (snd (pool_run cs (_port_pool BASE_PORT MAX_WORKERS, []))).
Proof.
  intros H.
  pose proof (pool_run_conserves cs _ H) as Hp.
  cbn [fst snd] in Hp. rewrite app_nil_r in Hp. split.
  - intros p Hin.
    assert (Hin0 : In p (_port_pool BASE_PORT MAX_WORKERS)).
    { apply (Permutation_in _ Hp). apply in_or_app. right. exact Hin. }
    rewrite port_pool_as_range in Hin0. apply in_range in Hin0. lia.
  - eapply NoDup_app_remove_l.
    eapply Permutation_NoDup; [symmetry; exact Hp|].
    rewrite port_pool_as_range. apply NoDup_range.
Qed.

Lemma held_ports_in_range_witness :
  disciplined (_port_pool 65530 10, []) [Take; Take; Return 65535; Take]
  /\ snd (pool_run [Take; Take; Return 65535; Take] (_port_pool 65530 10, []))
     = [65535; 65534]
  /\ NoDup (snd (pool_run [Take; Take; Return 65535; Take]
                          (_port_pool 65530 10, []))).
Proof.
  assert (H : disciplined (_port_pool 65530 10, [])
                [Take; Take; Return 65535; Take]).
  { simpl. tauto. }
  split; [exact H|]. split; [reflexivity|].
  exact (proj2 (held_ports_in_range 65530 10 _ H)).
Defined.

End PoolDisciplineFacts.

(** ** The registry and the handlers *)
Section HandlerFacts.
Import Signals.

Lemma list_remove_perm (x : entry) (l l' : list entry) :
  list_remove x l = Some l' -> Permutation l (x :: l').
Proof.
  revert l'. induction l as [|y t IH]; simpl; intros l' H; [discriminate|].
  destruct (entry_eqb y x) eqn:E.
  - apply entry_eqb_eq in E. inversion H. subst. reflexivity.
  - destruct (list_remove x t) as [t'|]; [|discriminate].
    inversion H. subst. rewrite (IH t' eq_refl). apply perm_swap.
Qed.

Lemma list_remove_present (x : entry) (l : list entry) :
  In x l -> exists l', list_remove x l = Some l'.
Proof.
  induction l as [|y t IH]; simpl; intros H; [contradiction|].
  destruct (entry_eqb y x) eqn:E; [eauto|].
  destruct H as [->|H].
  - rewrite (proj2 (entry_eqb_eq x x) eq_refl) in E. discriminate.
  - destruct (IH H) as [t' ->]. eauto.
Qed.

Lemma list_remove_snoc (x : entry) (l : list entry) :
  ~ In x l -> list_remove x (l ++ [x]) = Some l.
Proof.
  induction l as [|y t IH]; simpl; intros H.
  - rewrite (proj2 (entry_eqb_eq x x) eq_refl). reflexivity.
  - destruct (entry_eqb y x) eqn:E.
    + apply entry_eqb_eq in E. tauto.
    + rewrite IH by tauto. reflexivity.
Qed.

(** X5: unregistering what was just registered gives back the registry
    as it was when the pair was not in it, and the same pairs in any case
    (when the pair was registered before, it is the older entry that
    goes); an unregistration takes away at most one entry. *)
Theorem register_unregister_round_trip (proc : Popen) (port : Z)
    (active : list entry) :
  Permutation (unregister_process proc port (register_process proc port active))
              active
  /\ (~ In (proc, port) active ->
      unregister_process proc port (register_process proc port active) = active)
  /\ (In (proc, port) active ->
      S (List.length (unregister_process proc port active)) = List.length active)
  /\ In (proc, port) (register_process proc port active).
Proof.
  unfold unregister_process, register_process. repeat split.
  - destruct (list_remove_present (proc, port) (active ++ [(proc, port)]))
      as [l' Hl'].
    { apply in_or_app. right. left. reflexivity. }
    rewrite Hl'. apply list_remove_perm in Hl'.
    apply Permutation_cons_inv with (a := (proc, port)).
    rewrite <- Hl'. symmetry. apply Permutation_cons_append.
  - intros H. rewrite list_remove_snoc by exact H. reflexivity.
  - intros H. destruct (list_remove_present _ _ H) as [l' Hl'].
    rewrite Hl'. apply list_remove_perm in Hl'.
    rewrite (Permutation_length Hl'). reflexivity.
  - apply in_or_app. right. left. reflexivity.
Qed.

Lemma register_unregister_round_trip_witness :
  unregister_process 7%nat 10808
    (register_process 7%nat 10808 [(5%nat, 10806); (6%nat, 10807)]) =
  [(5%nat, 10806); (6%nat, 10807)]
  /\ unregister_process 5%nat 10806
       (register_process 5%nat 10806 [(5%nat, 10806); (6%nat, 10807)]) =
     [(6%nat, 10807); (5%nat, 10806)].
Proof.
  destruct (register_unregister_round_trip 7%nat 10808
              [(5%nat, 10806); (6%nat, 10807)]) as [_ [H _]].
  split; [|reflexivity].
  apply H. simpl. intros [E|[E|[]]]; discriminate.
Defined.

(** X6: on a signal every registered process is killed once and its port
    given back once, though the cleanup runs twice (in the handler and in
    the exit hook): the registry ends empty, the flag is set, the exit
    status is 0, the partial results are written as [save_partial_results]
    decides; and when the free ports and the ports of the registered
    processes are together the ports the pool started with, the pool ends
    with exactly those. *)
Theorem signal_cleans_up_once (g : globals) :
  let g' := fst (on_signal g) in
  let e := snd (on_signal g) in
  killed e = map fst (active_processes g)
  /\ port_pool g' = (port_pool g ++ map snd (active_processes g))%list
  /\ active_processes g' = []
  /\ interrupted g' = true
  /\ exit_status e = Some 0
  /\ written e =
     match save_partial_results (available_keys g) (output_path_global g) with
     | Some f => [f]
     | None => []
     end
  /\ (forall pool0,
        Permutation (port_pool g ++ map snd (active_processes g)) pool0 ->
        Permutation (port_pool g') pool0)
  /\ on_signal g' = (g', mk_effects [] (written e) (Some 0)).
Proof.
  cbv zeta. unfold on_signal, signal_handler, exit_hook, cleanup_processes.
  cbn [_snapshot_and_clear_active fst snd]. rewrite fold_return_port.
  cbn [active_processes port_pool interrupted available_keys
       output_path_global killed written exit_status map fold_left fst snd].
  rewrite !app_nil_r. repeat split. intros pool0 H. exact H.
Qed.

End HandlerFacts.

(** ** The store: statistics, lookups and repeated clean-ups *)
Section StoreMoreFacts.
Import Store.
Open Scope string_scope.

Lemma MIN_none (l : list string) : MIN l = None <-> l = [].
Proof.
  destruct l as [|x t]; simpl; [tauto|].
  destruct (MIN t); split; discriminate.
Qed.

Lemma MAX_none (l : list string) : MAX l = None <-> l = [].
Proof.
  destruct l as [|x t]; simpl; [tauto|].
  destruct (MAX t); split; discriminate.
Qed.

Lemma MIN_least (l : list string) (m : string) :
  MIN l = Some m -> In m l /\ forall x, In x l -> String.leb m x = true.
Proof.
  revert m. induction l as [|x t IH]; simpl; intros m H; [discriminate|].
  destruct (MIN t) as [m'|] eqn:E.
  - destruct (IH m' eq_refl) as [Hin Hle]. inversion H; subst m; clear H.
    destruct (String.ltb x m') eqn:Hlt; split; auto.
    + intros y [<-|Hy]; [apply leb_refl|].
      apply ltb_leb. eapply ltb_leb_trans; [exact Hlt|auto].
    + intros y [<-|Hy]; [|auto].
      rewrite ltb_negb_leb in Hlt. apply negb_false_iff in Hlt. exact Hlt.
  - apply MIN_none in E. subst t. inversion H; subst.
    split; [auto|]. intros y [<-|[]]. apply leb_refl.
Qed.

Lemma MAX_greatest (l : list string) (m : string) :
  MAX l = Some m -> In m l /\ forall x, In x l -> String.leb x m = true.
Proof.
  revert m. induction l as [|x t IH]; simpl; intros m H; [discriminate|].
  destruct (MAX t) as [m'|] eqn:E.
  - destruct (IH m' eq_refl) as [Hin Hle]. inversion H; subst m; clear H.
    destruct (String.ltb m' x) eqn:Hlt; split; auto.
    + intros y [<-|Hy]; [apply leb_refl|].
      eapply leb_trans; [apply Hle; exact Hy|apply ltb_leb; exact Hlt].
    + intros y [<-|Hy]; [|auto].
      rewrite ltb_negb_leb in Hlt. apply negb_false_iff in Hlt. exact Hlt.
  - apply MAX_none in E. subst t. inversion H; subst.
    split; [auto|]. intros y [<-|[]]. apply leb_refl.
Qed.

(** X7: [get_stats] counts the rows; on an empty table both times are
    [None], otherwise [min_first_seen] is the [first_seen] of some row and
    not after that of any row, [max_last_seen] is the [last_seen] of some
    row and not before that of any row; and where every row has
    [first_seen] not after [last_seen], the minimum is not after the
    maximum. *)
Theorem get_stats_spec (conn : connection) :
  let st := get_stats conn in
  total st = Z.of_nat (List.length (notworkers conn))
  /\ (min_first_seen st = None <-> notworkers conn = [])
  /\ (max_last_seen st = None <-> notworkers conn = [])
  /\ (forall m, min_first_seen st = Some m ->
        (exists r, In r (notworkers conn) /\ first_seen r = m)
        /\ forall r, In r (notworkers conn) ->
                     String.leb m (first_seen r) = true)
  /\ (forall m, max_last_seen st = Some m ->
        (exists r, In r (notworkers conn) /\ last_seen r = m)
        /\ forall r, In r (notworkers conn) ->
                     String.leb (last_seen r) m = true)
  /\ (Forall row_ok (notworkers conn) ->
      forall m M, min_first_seen st = Some m -> max_last_seen st = Some M ->
                  String.leb m M = true).
Proof.
  cbv zeta. unfold get_stats. cbn [total min_first_seen max_last_seen].
  split; [reflexivity|]. split; [|split; [|split; [|split]]].
  - rewrite MIN_none. split; [apply map_eq_nil|intros ->; reflexivity].
  - rewrite MAX_none. split; [apply map_eq_nil|intros ->; reflexivity].
  - intros m H. apply MIN_least in H. destruct H as [Hin Hle]. split.
    + apply in_map_iff in Hin. destruct Hin as [r [Hr Hin]]. eauto.
    + intros r Hr. apply Hle. apply in_map. exact Hr.
  - intros m H. apply MAX_greatest in H. destruct H as [Hin Hle]. split.
    + apply in_map_iff in Hin. destruct Hin as [r [Hr Hin]]. eauto.
    + intros r Hr. apply Hle. apply in_map. exact Hr.
  - intros Hok m M Hm HM.
    apply MIN_least in Hm. apply MAX_greatest in HM.
    destruct Hm as [Hin Hle]. destruct HM as [_ Hge].
    apply in_map_iff in Hin. destruct Hin as [r [Hr Hin]]. subst m.
    rewrite Forall_forall in Hok. destruct (Hok r Hin) as [Hfl _].
    eapply leb_trans; [exact Hfl|]. apply Hge. apply in_map. exact Hin.
Qed.

Lemma get_stats_spec_witness :
  get_stats four_rows =
  mk_stats 4 (Some "2026-01-01T00:00:00Z") (Some "2026-01-04T00:00:00Z")
  /\ String.leb "2026-01-01T00:00:00Z" "2026-01-04T00:00:00Z" = true
  /\ get_stats (init_db None) = mk_stats 0 None None.
Proof.
  destruct (get_stats_spec four_rows) as [_ [_ [_ [_ [_ H]]]]].
  split; [reflexivity|]. split; [|reflexivity].
  apply H; [|reflexivity|reflexivity].
  repeat constructor; simpl; lia.
Defined.

(** What an upsert does to the set of keys. *)
Lemma has_key_upsert (now : string) (conn : connection) (k r : string)
    (src seen : option string) (k' : string) :
  k <> "" ->
  has_key k' (notworkers (upsert_notworker now conn k r src seen)) =
  has_key k' (notworkers conn) || String.eqb k k'.
Proof.
  intros Hk. destruct (has_key k (notworkers conn)) eqn:Hhas.
  - rewrite upsert_updates by assumption. cbn [notworkers].
    assert (Hsame : has_key k'
              (map (fun x => if String.eqb (key x) k
                             then do_update r (match seen with
                                               | Some t => t
                                               | None => now
                                               end) src x
                             else x) (notworkers conn)) =
            has_key k' (notworkers conn)).
    { unfold has_key. clear Hhas.
      induction (notworkers conn) as [|x t IH]; [reflexivity|].
      cbn [map existsb]. rewrite IH.
      destruct (String.eqb (key x) k); reflexivity. }
    rewrite Hsame. destruct (String.eqb k k') eqn:E.
    + apply String.eqb_eq in E. subst. rewrite Hhas. reflexivity.
    + rewrite orb_false_r. reflexivity.
  - rewrite upsert_inserts by assumption. cbn [notworkers].
    rewrite has_key_app. unfold has_key at 2. simpl.
    rewrite orb_false_r. reflexivity.
Qed.

Lemma lookup_eq (conn : connection) (k : string) :
  fst (is_notworker conn k) = negb (is_empty k) && has_key k (notworkers conn).
Proof. unfold is_notworker. destruct (is_empty k); reflexivity. Qed.

Lemma lookup_upsert_eq (now : string) (conn : connection)
    (k r : string) (src seen : option string) (k' : string) :
  fst (is_notworker (upsert_notworker now conn k r src seen) k') =
  negb (is_empty k') && (has_key k' (notworkers conn) || String.eqb k k').
Proof.
  rewrite lookup_eq. destruct (is_empty k') eqn:Ek'; [reflexivity|].
  cbn [negb andb]. destruct (is_empty k) eqn:Ek.
  - unfold upsert_notworker. rewrite Ek.
    apply is_empty_true in Ek. subst k. apply is_empty_false in Ek'.
    rewrite (proj2 (String.eqb_neq "" k')) by congruence.
    rewrite orb_false_r. reflexivity.
  - apply has_key_upsert. apply is_empty_false. exact Ek.
Qed.

Lemma lookup_after_delete (p : row -> bool) (conn c : connection) (k : string) :
  notworkers c = filter p (notworkers conn) ->
  fst (is_notworker c k) = true -> fst (is_notworker conn k) = true.
Proof.
  intros Hc. rewrite !lookup_eq, Hc, !andb_true_iff.
  intros [H1 H2]. split; [exact H1|].
  apply has_key_In. apply has_key_In in H2.
  apply in_map_iff in H2. destruct H2 as [x [Hx Hin]].
  apply filter_In in Hin. rewrite <- Hx. apply in_map. tauto.
Qed.

(** X8: after [upsert_notworker] of key [k], [is_notworker] answers
    [True] for [k] if it is not empty, and for any other key what it
    answered before; after [expire_old] or [prune_to_max] it answers
    [True] only for keys it answered [True] for before. *)
Theorem lookup_after_upsert (now : string) (conn : connection)
    (k r : string) (src seen : option string) (k' : string) :
  (k <> "" ->
   fst (is_notworker (upsert_notworker now conn k r src seen) k) = true)
  /\ (k' <> k ->
      fst (is_notworker (upsert_notworker now conn k r src seen) k') =
      fst (is_notworker conn k'))
  /\ (forall strftime utcnow days,
        fst (is_notworker (fst (expire_old strftime utcnow conn days)) k') = true ->
        fst (is_notworker conn k') = true)
  /\ (forall max_rows,
        fst (is_notworker (fst (prune_to_max conn max_rows)) k') = true ->
        fst (is_notworker conn k') = true).
Proof.
  split; [|split; [|split]].
  - intros Hk. rewrite lookup_upsert_eq, String.eqb_refl, orb_true_r.
    rewrite (proj2 (is_empty_false k) Hk). reflexivity.
  - intros Hne. rewrite lookup_upsert_eq, lookup_eq.
    rewrite (proj2 (String.eqb_neq k k')) by congruence.
    rewrite orb_false_r. reflexivity.
  - intros strftime utcnow days.
    destruct (expire_old_deletes strftime utcnow days conn) as [p [Hp _]].
    exact (lookup_after_delete p conn _ k' Hp).
  - intros max_rows.
    destruct (prune_to_max_deletes max_rows conn) as [p [Hp _]].
    exact (lookup_after_delete p conn _ k' Hp).
Qed.

Lemma lookup_after_upsert_witness :
  fst (is_notworker
         (upsert_notworker "2026-01-05T00:00:00Z" four_rows "k9" "r9" None None)
         "k9") = true
  /\ fst (is_notworker
            (upsert_notworker "2026-01-05T00:00:00Z" four_rows "k9" "r9" None
                              None) "k7") = false.
Proof.
  destruct (lookup_after_upsert "2026-01-05T00:00:00Z" four_rows "k9" "r9"
              None None "k7") as [H1 [H2 _]].
  split; [apply H1; discriminate|].
  rewrite H2 by discriminate. reflexivity.
Defined.

Lemma upsert_length (now : string) (conn : connection) (k r : string)
    (src seen : option string) :
  k <> "" ->
  List.length (notworkers (upsert_notworker now conn k r src seen)) =
  (List.length (notworkers conn) +
   if has_key k (notworkers conn) then 0 else 1)%nat.
Proof.
  intros Hk. destruct (has_key k (notworkers conn)) eqn:Hhas.
  - rewrite upsert_updates by assumption. cbn [notworkers].
    rewrite length_map. lia.
  - rewrite upsert_inserts by assumption. cbn [notworkers].
    rewrite length_app. reflexivity.
Qed.

(** The loop counts a key as updated when the table has it and as
    inserted when it has not, and leaves the table with the keys it had
    and the keys of the dictionary. *)
Lemma migrate_loop_counts (clock : nat -> string) (src : string)
    (items : list (string * string)) :
  forall (i : nat) (conn : connection) (inserted updated : Z),
  NoDup (map fst items) ->
  Forall (fun nf => fst nf <> "") items ->
  snd (migrate_loop clock src i items conn inserted updated) =
    (inserted + count_absent items (notworkers conn),
     updated + count_present items (notworkers conn))
  /\ (forall k',
        has_key k' (notworkers
                      (fst (migrate_loop clock src i items conn inserted
                                         updated))) =
        has_key k' (notworkers conn)
        || existsb (fun nf => String.eqb (fst nf) k') items)
  /\ Z.of_nat (List.length
                 (notworkers (fst (migrate_loop clock src i items conn
                                                inserted updated)))) =
     Z.of_nat (List.length (notworkers conn))
     + count_absent items (notworkers conn).
Proof.
  unfold count_absent, count_present.
  induction items as [|[norm full] rest IH];
    intros i conn inserted updated Hnd Hne.
  - simpl. rewrite !Z.add_0_r. repeat split.
    intros k'. rewrite orb_false_r. reflexivity.
  - inversion Hnd as [|? ? Hnorm Hrest]; subst.
    inversion Hne as [|? ? Hn0 Hne']; subst. simpl in Hn0.
    cbn [migrate_loop]. cbn [ran notworkers].
    set (conn2 := upsert_notworker (clock i)
                    (ran (SELECT_1_WHERE_KEY norm) conn) norm full
                    (Some src) None).
    assert (Hk2 : forall k', has_key k' (notworkers conn2) =
                             has_key k' (notworkers conn) || String.eqb norm k').
    { intros k'. unfold conn2. rewrite has_key_upsert by exact Hn0.
      reflexivity. }
    assert (Hrest2 : forall nf, In nf rest ->
              has_key (fst nf) (notworkers conn2) =
              has_key (fst nf) (notworkers conn)).
    { intros nf Hin. rewrite Hk2.
      rewrite (proj2 (String.eqb_neq norm (fst nf))); [apply orb_false_r|].
      intros E. apply Hnorm. rewrite E. apply in_map. exact Hin. }
    assert (Hp : filter (fun nf => has_key (fst nf) (notworkers conn2)) rest =
                 filter (fun nf => has_key (fst nf) (notworkers conn)) rest).
    { apply filter_ext_in. exact Hrest2. }
    assert (Ha : filter (fun nf => negb (has_key (fst nf) (notworkers conn2)))
                        rest =
                 filter (fun nf => negb (has_key (fst nf) (notworkers conn)))
                        rest).
    { apply filter_ext_in. intros nf Hin. rewrite (Hrest2 nf Hin).
      reflexivity. }
    assert (Hlen2 : List.length (notworkers conn2) =
                    (List.length (notworkers conn) +
                     if has_key norm (notworkers conn) then 0 else 1)%nat).
    { unfold conn2. rewrite upsert_length by exact Hn0. reflexivity. }
    cbn [filter fst].
    destruct (has_key norm (notworkers conn)) eqn:Hhas; cbn [negb].
    + destruct (IH (S i) conn2 inserted (updated + 1) Hrest Hne')
        as [H1 [H2 H3]].
      rewrite H1, H3, Hp, Ha, Hlen2. cbn [List.length existsb fst].
      split; [f_equal; lia|]. split; [|lia].
      intros k'. rewrite H2, Hk2, orb_assoc. reflexivity.
    + destruct (IH (S i) conn2 (inserted + 1) updated Hrest Hne')
        as [H1 [H2 H3]].
      rewrite H1, H3, Hp, Ha, Hlen2. cbn [List.length existsb fst].
      split; [f_equal; lia|]. split; [|lia].
      intros k'. rewrite H2, Hk2, orb_assoc. reflexivity.
Qed.

(** X9: whatever the store holds, [migrate_from_flat] over a dictionary
    of distinct non-empty keys returns as [inserted] the number of its
    keys the store did not have and as [updated] the number it had, which
    add up to the number of keys; afterwards the store has the keys it had
    and the keys of the dictionary, and has grown by [inserted] rows. *)
Theorem migrate_from_flat_counts (clock : nat -> string)
    (items : list (string * string)) (db_file : option database)
    (src : string) :
  NoDup (map fst items) ->
  Forall (fun nf => fst nf <> "") items ->
  let res := migrate_from_flat clock (Some items) db_file src in
  snd res = (count_absent items (rows_of db_file),
             count_present items (rows_of db_file))
  /\ fst (snd res) + snd (snd res) = Z.of_nat (List.length items)
  /\ (forall k',
        has_key k' (rows_of (fst res)) =
        has_key k' (rows_of db_file)
        || existsb (fun nf => String.eqb (fst nf) k') items)
  /\ Z.of_nat (List.length (rows_of (fst res))) =
     Z.of_nat (List.length (rows_of db_file))
     + count_absent items (rows_of db_file).
Proof.
  intros Hnd Hne. cbv zeta.
  assert (Hsum : count_absent items (rows_of db_file)
                 + count_present items (rows_of db_file)
                 = Z.of_nat (List.length items)).
  { unfold count_absent, count_present.
    rewrite <- (filter_length (fun nf => has_key (fst nf) (rows_of db_file))
                              items).
    lia. }
  destruct items as [|nf rest].
  - cbn. split; [reflexivity|]. split; [reflexivity|]. split; [|lia].
    intros k'. rewrite orb_false_r. reflexivity.
  - rewrite migrate_from_flat_some by discriminate.
    destruct (migrate_loop_counts clock src (nf :: rest) O (init_db db_file)
                0 0 Hnd Hne) as [H1 [H2 H3]].
    assert (Hrows : notworkers (init_db db_file) = rows_of db_file).
    { destruct db_file; reflexivity. }
    rewrite Hrows in H1, H2, H3.
    cbn [fst snd rows_of close]. rewrite H1. cbn [fst snd].
    split; [reflexivity|]. split; [exact Hsum|]. split; [exact H2|exact H3].
Qed.

Lemma migrate_from_flat_counts_witness :
  snd (migrate_from_flat (fun _ => "2026-01-05T00:00:00Z")
         (Some [("k1", "line one"); ("k8", "line eight"); ("k3", "line three")])
         (Some (close four_rows)) "flat") = (1, 2)
  /\ Z.of_nat (List.length (rows_of (fst
       (migrate_from_flat (fun _ => "2026-01-05T00:00:00Z")
          (Some [("k1", "line one"); ("k8", "line eight");
                 ("k3", "line three")])
          (Some (close four_rows)) "flat")))) = 5.
Proof.
  assert (Hnd : NoDup (map fst [("k1", "line one"); ("k8", "line eight");
                                ("k3", "line three")])).
  { simpl. repeat constructor; simpl; intuition discriminate. }
  assert (Hne : Forall (fun nf : string * string => fst nf <> "")
                  [("k1", "line one"); ("k8", "line eight");
                   ("k3", "line three")]).
  { repeat constructor; discriminate. }
  destruct (migrate_from_flat_counts (fun _ => "2026-01-05T00:00:00Z")
              _ (Some (close four_rows)) "flat" Hnd Hne)
    as [H1 [_ [_ H4]]].
  split; [rewrite H1; reflexivity|rewrite H4; reflexivity].
Defined.




Lemma prune_to_max_length (conn : connection) (max_rows : Z) :
  NoDup (map id (notworkers conn)) -> 0 < max_rows ->
  Z.of_nat (List.length (notworkers (fst (prune_to_max conn max_rows)))) =
    Z.min (Z.of_nat (List.length (notworkers conn))) max_rows
  /\ snd (prune_to_max conn max_rows) =
     Z.of_nat (List.length (notworkers conn))
     - Z.min (Z.of_nat (List.length (notworkers conn))) max_rows.
Proof.
  intros Hids Hpos. unfold prune_to_max.
  rewrite (proj2 (Z.leb_gt _ _) Hpos). cbn [ran notworkers].
  destruct (Z.leb (Z.of_nat (List.length (notworkers conn))) max_rows) eqn:E.
  - apply Z.leb_le in E. cbn [fst snd notworkers ran]. lia.
  - apply Z.leb_gt in E.
    cbn [fst snd notworkers sqlite_sequence executed ran].
    pose proof (delete_by_id (notworkers conn)
                  (order_by last_seen (notworkers conn))
                  (Z.to_nat (Z.of_nat (List.length (notworkers conn))
                             - max_rows))
                  Hids (order_by_perm last_seen (notworkers conn))) as Hkept.
    rewrite (Permutation_length Hkept), length_skipn, order_by_length.
    lia.
Qed.

(** X11: on a table with unique rowids and for a positive [max_rows],
    [prune_to_max] leaves the smaller of the row count and [max_rows]
    rows, so never more than [max_rows]; it returns the number it
    removed; run again, it removes nothing and returns 0. *)
Theorem prune_to_max_bound (conn : connection) (max_rows : Z) :
  NoDup (map id (notworkers conn)) -> 0 < max_rows ->
  let r1 := prune_to_max conn max_rows in
  let r2 := prune_to_max (fst r1) max_rows in
  Z.of_nat (List.length (notworkers (fst r1))) =
    Z.min (Z.of_nat (List.length (notworkers conn))) max_rows
  /\ Z.of_nat (List.length (notworkers (fst r1))) <= max_rows
  /\ snd r1 = Z.of_nat (List.length (notworkers conn))
              - Z.of_nat (List.length (notworkers (fst r1)))
  /\ notworkers (fst r2) = notworkers (fst r1)
  /\ snd r2 = 0.
Proof.
  intros Hids Hpos. cbv zeta.
  destruct (prune_to_max_length conn max_rows Hids Hpos) as [Hlen Hn].
  split; [exact Hlen|]. split; [lia|]. split; [lia|].
  remember (fst (prune_to_max conn max_rows)) as c1 eqn:Ec1.
  unfold prune_to_max.
  rewrite (proj2 (Z.leb_gt _ _) Hpos). cbn [ran notworkers].
  rewrite (proj2 (Z.leb_le _ _)) by lia.
  split; reflexivity.
Qed.

Lemma prune_to_max_bound_witness :
  NoDup (map id (notworkers four_rows))
  /\ Z.of_nat (List.length (notworkers (fst (prune_to_max four_rows 3)))) = 3
  /\ snd (prune_to_max (fst (prune_to_max four_rows 3)) 3) = 0.
Proof.
  assert (Hids : NoDup (map id (notworkers four_rows))).
  { simpl. repeat constructor; simpl; intuition discriminate. }
  split; [exact Hids|].
  destruct (prune_to_max_bound four_rows 3 Hids eq_refl)
    as [H1 [_ [_ [_ H5]]]].
  split; [rewrite H1; reflexivity|exact H5].
Defined.

End StoreMoreFacts.

(** ** The command line of the store *)
Section CliFacts.
Import Store Cli.
Open Scope string_scope.



End CliFacts.

(** ** The exported file, read back *)
Section ExportFacts.
Import Store.
Open Scope string_scope.

(** X13: [export_to_flat] writes a text whose lines, split at the
    newlines, are the [raw] values in the order of their keys, each
    without the newline that closes it, followed by nothing; this for rows
    whose [raw] holds no other newline.  It returns the number of rows
    and leaves the database file as it is; with no database file it
    writes nothing and returns 0. *)
Theorem export_to_flat_lines (rows : list row) (seq : Z) :
  Forall (fun r => Signals.occurs Signals.newline (chomp (raw r)) = false)
         rows ->
  (exists text,
     snd (fst (export_to_flat (Some (rows, seq)))) = Some text
     /\ Signals.split_newline text =
        (map (fun r => chomp (raw r)) (order_by key rows) ++ [""])%list)
  /\ snd (export_to_flat (Some (rows, seq))) = Z.of_nat (List.length rows)
  /\ fst (fst (export_to_flat (Some (rows, seq)))) = Some (rows, seq)
  /\ export_to_flat None = (None, None, 0).
Proof.
  intros Hraw. unfold export_to_flat.
  cbn [fst snd ran notworkers sqlite_sequence close].
  split; [|split; [|split; reflexivity]].
  - eexists. split; [reflexivity|].
    rewrite map_map.
    rewrite (map_ext (fun r => export_line (raw r))
                     (fun r => chomp (raw r) ++ Signals.newline))
      by (intros r; apply export_line_chomp).
    rewrite <- (map_map (fun r => chomp (raw r))
                        (fun b => b ++ Signals.newline)).
    apply split_newline_lines.
    apply Forall_forall. intros b Hb. apply in_map_iff in Hb.
    destruct Hb as [r [<- Hr]].
    rewrite Forall_forall in Hraw. apply Hraw.
    apply (Permutation_in _ (order_by_perm key rows)). exact Hr.
  - rewrite !length_map, order_by_length. reflexivity.
Qed.

Lemma export_to_flat_lines_witness :
  (exists text,
     snd (fst (export_to_flat
                 (Some (notworkers four_rows, sqlite_sequence four_rows)))) =
       Some text
     /\ Signals.split_newline text = ["r1"; "r2"; "r3"; "r4"; ""])
  /\ snd (export_to_flat
            (Some (notworkers four_rows, sqlite_sequence four_rows))) = 4.
Proof.
  assert (Hraw : Forall (fun r => Signals.occurs Signals.newline
                                    (chomp (raw r)) = false)
                   (notworkers four_rows)).
  { repeat constructor. }
  destruct (export_to_flat_lines (notworkers four_rows)
              (sqlite_sequence four_rows) Hraw)
    as [[text [Ht Hs]] [Hn _]].
  split; [|exact Hn].
  exists text. split; [exact Ht|]. rewrite Hs. reflexivity.
Defined.

End ExportFacts.

(** ** Stripping comments from the lines of a configuration *)
Section StripFacts.
Import StripVpnComments.

Lemma lstrip_nil (s : str) : lstrip s = [] <-> forallb isspace s = true.
Proof.
  induction s as [|c t IH]; simpl; [tauto|].
  destruct (isspace c); simpl; [exact IH|].
  split; discriminate.
Qed.

Lemma lstrip_head (s : str) (c : Z) (t : str) :
  lstrip s = c :: t -> isspace c = false.
Proof.
  induction s as [|x s IH]; simpl; [discriminate|].
  destruct (isspace x) eqn:E; [exact IH|].
  intros H. inversion H. subst. exact E.
Qed.

Lemma lstrip_fixed (c : Z) (t : str) :
  isspace c = false -> lstrip (c :: t) = c :: t.
Proof. intros H. simpl. rewrite H. reflexivity. Qed.

Lemma rstrip_nil (s : str) : rstrip s = [] <-> forallb isspace s = true.
Proof.
  induction s as [|c t IH]; simpl; [tauto|].
  destruct (rstrip t) as [|y r].
  - destruct (isspace c); simpl; [tauto|]. split; discriminate.
  - split; [discriminate|]. intros H. apply andb_true_iff in H.
    destruct IH as [_ IH]. specialize (IH (proj2 H)). discriminate.
Qed.

Lemma rstrip_cons (c : Z) (t : str) :
  isspace c = false -> rstrip (c :: t) = c :: rstrip t.
Proof.
  intros H. simpl. destruct (rstrip t); [rewrite H|]; reflexivity.
Qed.

Lemma rstrip_twice (s : str) : rstrip (rstrip s) = rstrip s.
Proof.
  induction s as [|c t IH]; [reflexivity|].
  cbn [rstrip]. destruct (rstrip t) as [|y r] eqn:E.
  - destruct (isspace c) eqn:Ec; [reflexivity|].
    simpl. rewrite Ec. reflexivity.
  - cbn [rstrip]. cbn [rstrip] in IH. rewrite IH. reflexivity.
Qed.

Lemma rstrip_last (s : str) (d : Z) :
  rstrip s <> [] -> isspace (last (rstrip s) d) = false.
Proof.
  induction s as [|c t IH]; [intros H; exfalso; apply H; reflexivity|].
  cbn [rstrip]. destruct (rstrip t) as [|y r] eqn:E.
  - destruct (isspace c) eqn:Ec; [intros H; exfalso; apply H; reflexivity|].
    intros _. exact Ec.
  - intros _. change (last (c :: y :: r) d) with (last (y :: r) d).
    apply IH. discriminate.
Qed.

Lemma In_lstrip (x : Z) (s : str) : In x (lstrip s) -> In x s.
Proof.
  induction s as [|c t IH]; simpl; [tauto|].
  destruct (isspace c); simpl; tauto.
Qed.

Lemma In_rstrip (x : Z) (s : str) : In x (rstrip s) -> In x s.
Proof.
  induction s as [|c t IH]; simpl; [tauto|].
  destruct (rstrip t) as [|y r].
  - destruct (isspace c); simpl; tauto.
  - simpl in *. tauto.
Qed.

Lemma In_strip (x : Z) (s : str) : In x (strip s) -> In x s.
Proof. intros H. apply In_lstrip, In_rstrip. exact H. Qed.

Lemma strip_head (s : str) (c : Z) (t : str) :
  strip s = c :: t -> isspace c = false.
Proof.
  unfold strip. destruct (lstrip s) as [|x u] eqn:E; [discriminate|].
  pose proof (lstrip_head s x u E) as Hx.
  rewrite rstrip_cons by exact Hx. intros H. inversion H. subst. exact Hx.
Qed.

Lemma strip_fixed (c : Z) (t : str) :
  isspace c = false -> strip (c :: t) = c :: rstrip t.
Proof.
  intros H. unfold strip. rewrite lstrip_fixed by exact H.
  apply rstrip_cons. exact H.
Qed.

Lemma strip_twice (s : str) : strip (strip s) = strip s.
Proof.
  destruct (strip s) as [|c t] eqn:E; [reflexivity|].
  pose proof (strip_head s c t E) as Hc.
  rewrite strip_fixed by exact Hc. f_equal.
  assert (H : rstrip (c :: t) = c :: t).
  { rewrite <- E. unfold strip. apply rstrip_twice. }
  rewrite rstrip_cons in H by exact Hc. inversion H as [H1].
  rewrite H1. exact H1.
Qed.

Lemma strip_nil (s : str) : strip s = [] <-> forallb isspace s = true.
Proof.
  unfold strip. rewrite rstrip_nil. split.
  - intros H. apply lstrip_nil.
    destruct (lstrip s) as [|c t] eqn:E; [reflexivity|].
    apply lstrip_head in E. simpl in H. rewrite E in H. discriminate.
  - intros H. apply lstrip_nil in H. rewrite H. reflexivity.
Qed.

Lemma before_hash_no_hash (s : str) : ~ In HASH (before_hash s).
Proof.
  induction s as [|c t IH]; simpl; [tauto|].
  destruct (c =? HASH) eqn:E; simpl; [tauto|].
  apply Z.eqb_neq in E. intros [H|H]; [congruence|tauto].
Qed.

Lemma before_hash_fixed (s : str) : ~ In HASH s -> before_hash s = s.
Proof.
  induction s as [|c t IH]; simpl; intros H; [reflexivity|].
  destruct (c =? HASH) eqn:E.
  - apply Z.eqb_eq in E. tauto.
  - rewrite IH; tauto.
Qed.

Lemma strip_comment_facts (line : str) :
  let res := strip_comment_from_line line in
  strip_comment_from_line res = res
  /\ strip res = res
  /\ (res <> [] ->
      isspace (hd 0 res) = false /\ isspace (last res 0) = false)
  /\ (hd 0 res = HASH \/ ~ In HASH res)
  /\ (res = [] <-> forallb isspace line = true).
Proof.
  cbv zeta. set (res := strip_comment_from_line line).
  assert (Hdef : res = match strip line with
                       | [] => strip line
                       | c :: _ => if c =? HASH then strip line
                                   else strip (before_hash (strip line))
                       end) by reflexivity.
  clearbody res.
  destruct (strip line) as [|c t] eqn:E.
  - subst res. split; [reflexivity|]. split; [reflexivity|].
    split; [intros H; exfalso; apply H; reflexivity|].
    split; [right; intros []|].
    rewrite <- strip_nil. rewrite E. tauto.
  - pose proof (strip_head line c t E) as Hc.
    assert (Hline : forallb isspace line = true -> False).
    { intros H. apply strip_nil in H. congruence. }
    assert (Hfix : strip (c :: t) = c :: t).
    { rewrite <- E. apply strip_twice. }
    destruct (c =? HASH) eqn:Eh.
    + subst res. split.
      { unfold strip_comment_from_line. rewrite Hfix, Eh. reflexivity. }
      split; [exact Hfix|]. split.
      { intros _. split; [exact Hc|].
        rewrite <- Hfix at 1. unfold strip.
        apply rstrip_last. fold (strip (c :: t)). rewrite Hfix. discriminate. }
      split; [left; apply Z.eqb_eq; exact Eh|].
      split; [discriminate|]. intros H. exfalso. exact (Hline H).
    + cbn [before_hash] in Hdef. rewrite Eh in Hdef.
      rewrite strip_fixed in Hdef by exact Hc.
      set (r := rstrip (before_hash t)) in Hdef.
      assert (Hr : strip (c :: r) = c :: r).
      { rewrite strip_fixed by exact Hc. unfold r. rewrite rstrip_twice.
        reflexivity. }
      assert (Hno : ~ In HASH (c :: r)).
      { intros [H|H].
        - apply Z.eqb_neq in Eh. congruence.
        - unfold r in H. apply In_rstrip in H.
          exact (before_hash_no_hash t H). }
      subst res. split.
      { unfold strip_comment_from_line. rewrite Hr, Eh.
        rewrite before_hash_fixed by exact Hno. exact Hr. }
      split; [exact Hr|]. split.
      { intros _. split; [exact Hc|].
        rewrite <- Hr at 1. unfold strip.
        apply rstrip_last. fold (strip (c :: r)). rewrite Hr. discriminate. }
      split; [right; exact Hno|].
      split; [discriminate|]. intros H. exfalso. exact (Hline H).
Qed.

(** X14: [strip_comment_from_line] gives a text without whitespace at
    its ends that either starts with "#" (a line that is a comment as a
    whole is kept) or holds no "#" at all; it gives the empty text exactly
    for the lines of whitespace only; applied to its own result it changes
    nothing. *)
Theorem strip_comment_from_line_spec (line : str) :
  let res := strip_comment_from_line line in
  strip_comment_from_line res = res
  /\ strip res = res
  /\ (res <> [] ->
      isspace (hd 0 res) = false /\ isspace (last res 0) = false)
  /\ (hd 0 res = HASH \/ ~ In HASH res)
  /\ (res = [] <-> forallb isspace line = true).
Proof. exact (strip_comment_facts line). Qed.

Lemma strip_comment_from_line_spec_witness :
  strip_comment_from_line
    [32; 118; 108; 101; 115; 115; 58; 47; 47; 97; 64; 104; 58; 49; 32; 35;
     32; 116; 97; 103; 160; 10] =
  [118; 108; 101; 115; 115; 58; 47; 47; 97; 64; 104; 58; 49]
  /\ strip_comment_from_line [32; 35; 32; 110; 111; 116; 101; 32] =
     [35; 32; 110; 111; 116; 101]
  /\ strip_comment_from_line [9; 32; 12288; 13; 10] = [].
Proof.
  split; [reflexivity|]. split; [reflexivity|].
  apply (proj2 (proj2 (proj2 (proj2
           (strip_comment_from_line_spec [9; 32; 12288; 13; 10]))))).
  reflexivity.
Defined.

Lemma is_ascii_true (c : Z) : 0 <= c < 128 -> is_ascii c = true.
Proof.
  intros H. unfold is_ascii. apply andb_true_iff.
  split; [apply Z.leb_le|apply Z.ltb_lt]; lia.
Qed.

Lemma ascii_upper_cases (c : Z) :
  (97 <= c <= 122 /\ ascii_upper c = c - 32)
  \/ (~ 97 <= c <= 122 /\ ascii_upper c = c).
Proof.
  unfold ascii_upper.
  destruct (Z.leb_spec 97 c); destruct (Z.leb_spec c 122); simpl;
    try (left; split; [lia|reflexivity]); right; split; try reflexivity; lia.
Qed.

Lemma is_capital (c : Z) :
  ((65 <=? c) && (c <=? 90) = true <-> 65 <= c <= 90).
Proof. rewrite andb_true_iff, Z.leb_le, Z.leb_le. tauto. Qed.

Lemma is_not_capital (c : Z) :
  ~ 65 <= c <= 90 -> (65 <=? c) && (c <=? 90) = false.
Proof.
  intros H. destruct ((65 <=? c) && (c <=? 90)) eqn:E; [|reflexivity].
  apply is_capital in E. contradiction.
Qed.

(** X15: [country_code_to_flag] gives the globe for every text that is
    not two characters long; for two ASCII letters, in either case, the
    two regional indicators of the letters; and for two ASCII characters
    of which none is a letter the empty text, not the globe.  [str.upper]
    is taken to do on ASCII text what it does there: turn a-z into A-Z. *)
Theorem country_code_to_flag_spec (upper : str -> str) :
  (forall s, forallb is_ascii s = true -> upper s = map ascii_upper s) ->
  (forall cc, List.length cc <> 2%nat ->
              country_code_to_flag upper cc = [GLOBE])
  /\ (forall a b,
        (65 <= a <= 90 \/ 97 <= a <= 122) ->
        (65 <= b <= 90 \/ 97 <= b <= 122) ->
        country_code_to_flag upper [a; b] =
        [REGIONAL_INDICATOR_A + (ascii_upper a - 65);
         REGIONAL_INDICATOR_A + (ascii_upper b - 65)]
        /\ country_code_to_flag upper [a; b] =
           country_code_to_flag upper [ascii_upper a; ascii_upper b])
  /\ (forall a b,
        0 <= a < 128 -> 0 <= b < 128 ->
        ~ (65 <= a <= 90 \/ 97 <= a <= 122) ->
        ~ (65 <= b <= 90 \/ 97 <= b <= 122) ->
        country_code_to_flag upper [a; b] = []).
Proof.
  intros Hup.
  assert (Hpair : forall a b, 0 <= a < 128 -> 0 <= b < 128 ->
            country_code_to_flag upper [a; b] =
            map (fun c => REGIONAL_INDICATOR_A + c - 65)
                (filter (fun c => (65 <=? c) && (c <=? 90))
                        [ascii_upper a; ascii_upper b])).
  { intros a b Ha Hb. unfold country_code_to_flag. rewrite Hup; [reflexivity|].
    simpl. rewrite !is_ascii_true by assumption. reflexivity. }
  split; [|split].
  - intros cc Hlen.
    destruct cc as [|a [|b [|c t]]]; try reflexivity.
    exfalso. apply Hlen. reflexivity.
  - intros a b Ha Hb.
    assert (Ha' : 65 <= ascii_upper a <= 90
                  /\ ascii_upper (ascii_upper a) = ascii_upper a).
    { destruct (ascii_upper_cases a) as [[H1 H2]|[H1 H2]];
        destruct (ascii_upper_cases (ascii_upper a)) as [[H3 H4]|[H3 H4]];
        lia. }
    assert (Hb' : 65 <= ascii_upper b <= 90
                  /\ ascii_upper (ascii_upper b) = ascii_upper b).
    { destruct (ascii_upper_cases b) as [[H1 H2]|[H1 H2]];
        destruct (ascii_upper_cases (ascii_upper b)) as [[H3 H4]|[H3 H4]];
        lia. }
    destruct Ha' as [Ha1 Ha2]. destruct Hb' as [Hb1 Hb2].
    rewrite !Hpair by lia. rewrite Ha2, Hb2. cbn [filter].
    rewrite (proj2 (is_capital (ascii_upper a)) Ha1).
    rewrite (proj2 (is_capital (ascii_upper b)) Hb1).
    cbn [map]. split; [|reflexivity].
    f_equal; [lia|f_equal; lia].
  - intros a b Ha Hb Hna Hnb.
    rewrite Hpair by lia. cbn [filter].
    rewrite (is_not_capital (ascii_upper a)).
    2:{ destruct (ascii_upper_cases a) as [[H1 H2]|[H1 H2]]; lia. }
    rewrite (is_not_capital (ascii_upper b)).
    2:{ destruct (ascii_upper_cases b) as [[H1 H2]|[H1 H2]]; lia. }
    reflexivity.
Qed.

Lemma country_code_to_flag_spec_witness :
  (forall s, forallb is_ascii s = true -> map ascii_upper s = map ascii_upper s)
  /\ country_code_to_flag (map ascii_upper) [114; 117] = [127479; 127482]
  /\ country_code_to_flag (map ascii_upper) [49; 50] = []
  /\ country_code_to_flag (map ascii_upper) [] = [GLOBE].
Proof.
  assert (Hup : forall s, forallb is_ascii s = true ->
                          map ascii_upper s = map ascii_upper s).
  { intros s _. reflexivity. }
  destruct (country_code_to_flag_spec (map ascii_upper) Hup)
    as [H1 [H2 H3]].
  split; [exact Hup|]. split; [|split].
  - destruct (H2 114 117 ltac:(lia) ltac:(lia)) as [H _].
    rewrite H. reflexivity.
  - apply H3; lia.
  - apply H1. discriminate.
Defined.

End StripFacts.

(** ** The host of a link and the cache of country codes *)
Section HostFacts.
Import StripVpnComments.

Lemma has_char_In (c : Z) (s : str) : has_char c s = true <-> In c s.
Proof.
  unfold has_char. rewrite existsb_exists. split.
  - intros [x [Hx E]]. apply Z.eqb_eq in E. subst. exact Hx.
  - intros H. exists c. split; [exact H|apply Z.eqb_refl].
Qed.

Lemma has_char_not_In (c : Z) (s : str) : has_char c s = false <-> ~ In c s.
Proof. rewrite <- has_char_In. destruct (has_char c s); split; congruence. Qed.

Lemma before_app (c : Z) (a b : str) :
  ~ In c a -> before c (a ++ c :: b) = a.
Proof.
  induction a as [|x a IH]; simpl; intros H.
  - rewrite Z.eqb_refl. reflexivity.
  - destruct (x =? c) eqn:E; [apply Z.eqb_eq in E; tauto|].
    rewrite IH by tauto. reflexivity.
Qed.

Lemma after_last_app (c : Z) (a b : str) :
  ~ In c b -> after_last c (a ++ c :: b) = b.
Proof.
  intros Hb. induction a as [|x a IH]; simpl.
  - rewrite (proj2 (has_char_not_In c b) Hb), Z.eqb_refl. reflexivity.
  - rewrite (proj2 (has_char_In c (a ++ c :: b))); [exact IH|].
    apply in_or_app. right. left. reflexivity.
Qed.

Lemma before_last_app (c : Z) (a b : str) :
  ~ In c b -> before_last c (a ++ c :: b) = a.
Proof.
  intros Hb. induction a as [|x a IH]; simpl.
  - rewrite (proj2 (has_char_not_In c b) Hb). reflexivity.
  - rewrite (proj2 (has_char_In c (a ++ c :: b))); [rewrite IH; reflexivity|].
    apply in_or_app. right. left. reflexivity.
Qed.

Lemma rstrip_app (a b : str) : rstrip b <> [] -> rstrip (a ++ b) = a ++ rstrip b.
Proof.
  intros Hb. induction a as [|x a IH]; [reflexivity|].
  simpl. rewrite IH. destruct (a ++ rstrip b) eqn:E; [|reflexivity].
  destruct a; simpl in E; [contradiction|discriminate].
Qed.

Lemma strip_clean (s : str) :
  (forall c, In c s -> isspace c = false) -> strip s = s.
Proof.
  induction s as [|x s IH]; intros H; [reflexivity|].
  rewrite strip_fixed by (apply H; left; reflexivity). f_equal.
  destruct s as [|y s]; [reflexivity|].
  assert (Hs : strip (y :: s) = y :: s).
  { apply IH. intros c Hc. apply H. right. exact Hc. }
  rewrite strip_fixed in Hs by (apply H; right; left; reflexivity).
  rewrite rstrip_cons by (apply H; right; left; reflexivity).
  exact Hs.
Qed.

(** What is found in the rest of a link of the form user@host:port,
    with or without a query after it. *)
Lemma host_of_rest_userinfo (user host port tail : str) :
  (forall c, In c (user ++ AT :: host ++ COLON :: port) -> isspace c = false) ->
  ~ In QUESTION (user ++ AT :: host ++ COLON :: port) ->
  ~ In AT host -> ~ In AT port -> ~ In COLON port ->
  tail = [] \/ (exists query, tail = QUESTION :: query) ->
  host_of_rest (strip ((user ++ AT :: host ++ COLON :: port) ++ tail)) =
  Some host.
Proof.
  intros Hws Hq Hah Hap Hcp Htail.
  set (body := user ++ AT :: host ++ COLON :: port) in *.
  assert (Hbody : strip body = body) by (apply strip_clean; exact Hws).
  assert (Hrest : (if has_char QUESTION (strip (body ++ tail))
                   then before QUESTION (strip (body ++ tail))
                   else strip (body ++ tail)) = body).
  { destruct Htail as [->|[query ->]].
    - rewrite app_nil_r, Hbody.
      rewrite (proj2 (has_char_not_In QUESTION body) Hq). reflexivity.
    - assert (Hne : body <> []).
      { unfold body. destruct user; discriminate. }
      destruct body as [|b0 body'] eqn:Eb; [congruence|].
      assert (Hb0 : isspace b0 = false) by (apply Hws; left; reflexivity).
      change ((b0 :: body') ++ QUESTION :: query)
        with (b0 :: (body' ++ QUESTION :: query)).
      rewrite strip_fixed by exact Hb0.
      assert (Hr : rstrip (QUESTION :: query) = QUESTION :: rstrip query).
      { apply rstrip_cons. reflexivity. }
      rewrite rstrip_app by (rewrite Hr; discriminate).
      rewrite Hr.
      change (b0 :: body' ++ QUESTION :: rstrip query)
        with ((b0 :: body') ++ QUESTION :: rstrip query).
      rewrite (proj2 (has_char_In QUESTION _))
        by (apply in_or_app; right; left; reflexivity).
      apply before_app. exact Hq. }
  unfold host_of_rest. rewrite Hrest. unfold body.
  rewrite (proj2 (has_char_In AT _))
    by (apply in_or_app; right; left; reflexivity).
  rewrite after_last_app.
  2:{ intros H. apply in_app_or in H.
      destruct H as [H|[H|H]]; [tauto|discriminate|tauto]. }
  rewrite (proj2 (has_char_In COLON _))
    by (apply in_or_app; right; left; reflexivity).
  rewrite before_last_app by exact Hcp.
  f_equal. apply strip_clean. intros c Hc. apply Hws.
  apply in_or_app. right. right. apply in_or_app. left. exact Hc.
Qed.

Lemma host_by_prefix_hit (prefix body : str) :
  In prefix PREFIXES ->
  host_by_prefix PREFIXES (prefix ++ body) = host_of_rest (strip body).
Proof.
  intros H. unfold PREFIXES in H. simpl in H.
  repeat (destruct H as [<-|H]; [reflexivity|]). contradiction.
Qed.

Lemma host_by_prefix_miss (prefixes : list str) (link : str) :
  forallb (fun p => negb (startswith p link)) prefixes = true ->
  host_by_prefix prefixes link = None.
Proof.
  induction prefixes as [|p ps IH]; [reflexivity|].
  simpl. intros H. apply andb_true_iff in H. destruct H as [H1 H2].
  apply negb_true_iff in H1. rewrite H1. apply IH. exact H2.
Qed.

(** X16: without [parse_proxy_url], for a link made of one of the seven
    prefixes, a user part, "@", a host, ":", a port and maybe a query
    after "?", all free of whitespace (the host without "@" and "?", the
    port without "@", ":" and "?", the user part without "?"),
    [get_host_from_link] gives the host; with [parse_proxy_url] and an
    address parsed, it gives that address stripped; for a link that starts
    with none of the prefixes it gives [None]. *)
Theorem get_host_from_link_userinfo (prefix user host port tail : str) :
  In prefix PREFIXES ->
  (forall c, In c (user ++ AT :: host ++ COLON :: port) -> isspace c = false) ->
  ~ In QUESTION (user ++ AT :: host ++ COLON :: port) ->
  ~ In AT host -> ~ In AT port -> ~ In COLON port ->
  tail = [] \/ (exists query, tail = QUESTION :: query) ->
  get_host_from_link None
    (prefix ++ (user ++ AT :: host ++ COLON :: port) ++ tail) = Some host
  /\ (forall parse link address,
        parse link = Some address ->
        get_host_from_link (Some parse) link = Some (strip address))
  /\ (forall link,
        forallb (fun p => negb (startswith p link)) PREFIXES = true ->
        get_host_from_link None link = None).
Proof.
  intros Hp Hws Hq Hah Hap Hcp Htail. split; [|split].
  - unfold get_host_from_link. rewrite host_by_prefix_hit by exact Hp.
    apply host_of_rest_userinfo; assumption.
  - intros parse link address H. unfold get_host_from_link. rewrite H.
    reflexivity.
  - intros link H. unfold get_host_from_link.
    apply host_by_prefix_miss. exact H.
Qed.

Lemma get_host_from_link_userinfo_witness :
  get_host_from_link None
    ([118; 108; 101; 115; 115; 58; 47; 47] ++
     ([117; 117; 105; 100] ++ AT :: [91; 58; 58; 49; 93] ++ COLON :: [52; 52; 51])
     ++ QUESTION :: [115; 61; 49; 32]) = Some [91; 58; 58; 49; 93]
  /\ get_host_from_link None [104; 116; 116; 112; 58; 47; 47; 104] = None.
Proof.
  destruct (get_host_from_link_userinfo
              [118; 108; 101; 115; 115; 58; 47; 47] [117; 117; 105; 100]
              [91; 58; 58; 49; 93] [52; 52; 51] (QUESTION :: [115; 61; 49; 32]))
    as [H1 [_ H3]].
  - simpl. tauto.
  - intros c Hc. simpl in Hc.
    repeat (destruct Hc as [<-|Hc]; [reflexivity|]). contradiction.
  - simpl. unfold QUESTION, AT, COLON. intuition discriminate.
  - simpl. unfold AT. intuition discriminate.
  - simpl. unfold AT. intuition discriminate.
  - simpl. unfold COLON. intuition discriminate.
  - right. eexists. reflexivity.
  - split; [exact H1|]. apply H3. reflexivity.
Defined.

Lemma fetch_country_step (api : str -> option str) (ip : str) (cache : dict) :
  dict_get ip (snd (fst (fetch_country_for_ip api ip cache))) =
    Some (fst (fst (fetch_country_for_ip api ip cache)))
  /\ (forall k, k <> ip ->
        dict_get k (snd (fst (fetch_country_for_ip api ip cache))) =
        dict_get k cache)
  /\ (forall k, dict_get k (snd (fst (fetch_country_for_ip api ip cache))) = None ->
                dict_get k cache = None)
  /\ (forall a, In a (snd (fetch_country_for_ip api ip cache)) ->
                a = ip /\ dict_get ip cache = None).
Proof.
  unfold fetch_country_for_ip.
  destruct (dict_get ip cache) as [v|] eqn:E.
  - cbn [fst snd]. repeat split; auto; contradiction.
  - destruct (api ip) as [cc|]; cbn [fst snd dict_get];
      (destruct (str_eq_dec ip ip) as [_|Hn]; [|congruence]);
      (split; [reflexivity|]); (split; [|split]).
    all: try (intros k Hk; destruct (str_eq_dec k ip); [congruence|reflexivity]).
    all: try (intros k; destruct (str_eq_dec k ip); [discriminate|tauto]).
    all: intros a [<-|[]]; auto.
Qed.

Lemma fetch_all_once (api : str -> option str) (ips : list str) :
  forall cache,
  NoDup (snd (fetch_all api ips cache))
  /\ (forall a, In a (snd (fetch_all api ips cache)) ->
                In a ips /\ dict_get a cache = None)
  /\ (forall ip, In ip ips -> dict_get ip (fst (fetch_all api ips cache)) <> None)
  /\ (forall k, dict_get k (fst (fetch_all api ips cache)) = None ->
                dict_get k cache = None).
Proof.
  induction ips as [|ip rest IH]; intros cache.
  - simpl. repeat split; try constructor; try contradiction. auto.
  - cbn [fetch_all].
    destruct (fetch_country_step api ip cache) as [S1 [S2 [S3 S4]]].
    destruct (fetch_country_for_ip api ip cache) as [[cc cache1] asked] eqn:E.
    cbn [fst snd] in S1, S2, S3, S4.
    destruct (IH cache1) as [I1 [I2 [I3 I4]]].
    destruct (fetch_all api rest cache1) as [cache2 asked'] eqn:E'.
    cbn [fst snd] in *.
    split; [|split; [|split]].
    + apply NoDup_app.
      * assert (Hasked : asked = [] \/ asked = [ip]).
        { unfold fetch_country_for_ip in E.
          destruct (dict_get ip cache); [|destruct (api ip)];
            inversion E; auto. }
        destruct Hasked as [->| ->]; repeat constructor. simpl. tauto.
      * exact I1.
      * intros a Ha Ha'. destruct (S4 a Ha) as [-> _].
        destruct (I2 ip Ha') as [_ Hnone]. congruence.
    + intros a Ha. apply in_app_or in Ha. destruct Ha as [Ha|Ha].
      * destruct (S4 a Ha) as [-> Hc]. split; [left; reflexivity|exact Hc].
      * destruct (I2 a Ha) as [Hin Hc]. split; [right; exact Hin|].
        apply S3. exact Hc.
    + intros k [<-|Hk]; [|apply I3; exact Hk].
      intros Hn. apply I4 in Hn. congruence.
    + intros k Hk. apply S3. apply I4. exact Hk.
Qed.

(** X17: [fetch_country_for_ip] leaves the address in the cache with the
    code it returns, also when the request fails (it then returns and
    keeps the empty code) and touches no other entry; a call for a cached
    address asks nothing.  So over any run of calls on one cache each
    address is asked at most once, and only if it was not cached at the
    start. *)
Theorem fetch_country_cached (api : str -> option str) (ip : str)
    (cache : dict) (ips : list str) :
  let r := fetch_country_for_ip api ip cache in
  dict_get ip (snd (fst r)) = Some (fst (fst r))
  /\ fetch_country_for_ip api ip (snd (fst r)) = (fst (fst r), snd (fst r), [])
  /\ (forall k, k <> ip -> dict_get k (snd (fst r)) = dict_get k cache)
  /\ (dict_get ip cache = None -> api ip = None ->
      r = ([], (ip, []) :: cache, [ip]))
  /\ NoDup (snd (fetch_all api ips cache))
  /\ (forall a, In a (snd (fetch_all api ips cache)) ->
                In a ips /\ dict_get a cache = None).
Proof.
  cbv zeta.
  destruct (fetch_country_step api ip cache) as [S1 [S2 _]].
  destruct (fetch_all_once api ips cache) as [A1 [A2 _]].
  split; [exact S1|]. split; [|split; [exact S2|split; [|split]]].
  - unfold fetch_country_for_ip at 1. rewrite S1. reflexivity.
  - intros Hc Ha. unfold fetch_country_for_ip. rewrite Hc, Ha. reflexivity.
  - exact A1.
  - exact A2.
Qed.

End HostFacts.

(** ** Processing a whole file *)
Section ProcessFileFacts.
Import StripVpnComments.

Lemma In_before_hash (c : Z) (s : str) : In c (before_hash s) -> In c s.
Proof.
  induction s as [|x t IH]; simpl; [tauto|].
  destruct (x =? HASH); simpl; tauto.
Qed.

Lemma In_strip_comment (c : Z) (line : str) :
  In c (strip_comment_from_line line) -> In c line.
Proof.
  unfold strip_comment_from_line.
  destruct (strip line) as [|x t] eqn:E; [contradiction|].
  destruct (x =? HASH).
  - rewrite <- E. apply In_strip.
  - intros H. apply In_strip, In_before_hash in H.
    rewrite <- E in H. apply In_strip in H. exact H.
Qed.


Lemma pieces_clean (s : str) : forall after_cr, Forall clean (pieces after_cr s).
Proof.
  induction s as [|c t IH]; intros after_cr; simpl.
  - repeat constructor. intros c [].
  - destruct (after_cr && (c =? 10)); [apply IH|].
    destruct (is_linebreak c) eqn:E.
    + constructor; [intros x []|apply IH].
    + specialize (IH false). destruct (pieces false t) as [|h r].
      * repeat constructor. intros x [<-|[]]. exact E.
      * inversion IH as [|? ? Hh Hr]; subst. constructor; [|exact Hr].
        intros x [<-|Hx]; [exact E|apply Hh; exact Hx].
Qed.

Lemma Forall_removelast {A : Type} (P : A -> Prop) (l : list A) :
  Forall P l -> Forall P (removelast l).
Proof.
  induction 1 as [|x l Hx Hl IH]; simpl; [constructor|].
  destruct l; [constructor|]. constructor; assumption.
Qed.

Lemma splitlines_clean (s : str) : Forall clean (splitlines s).
Proof.
  unfold splitlines. destruct (last (pieces false s) []).
  - apply Forall_removelast, pieces_clean.
  - apply pieces_clean.
Qed.

Lemma pieces_line (l rest : str) :
  clean l -> pieces false (l ++ 10 :: rest) = l :: pieces false rest.
Proof.
  induction l as [|c l IH]; intros H; [reflexivity|].
  cbn [app pieces andb].
  rewrite (H c (or_introl eq_refl)).
  rewrite IH by (intros x Hx; apply H; right; exact Hx). reflexivity.
Qed.

Lemma pieces_join (ls : list str) :
  forall l, Forall clean (l :: ls) ->
  pieces false (join [10] (l :: ls) ++ [10]) = ((l :: ls) ++ [[]])%list.
Proof.
  induction ls as [|l' ls IH]; intros l H.
  - inversion H; subst. simpl join. rewrite pieces_line by assumption.
    reflexivity.
  - inversion H as [|? ? Hl Hrest]; subst.
    change (join [10] (l :: l' :: ls)) with (l ++ [10] ++ join [10] (l' :: ls)).
    rewrite <- app_assoc.
    change (([10] ++ join [10] (l' :: ls)) ++ [10])
      with (10 :: (join [10] (l' :: ls) ++ [10])).
    rewrite pieces_line by exact Hl. rewrite IH by exact Hrest. reflexivity.
Qed.

(** The lines of the written text are the texts joined. *)
Lemma splitlines_join (ls : list str) :
  Forall clean ls ->
  splitlines (join [10] ls ++ (if is_nil ls then [] else [10])) = ls.
Proof.
  intros H. destruct ls as [|l ls]; [reflexivity|].
  cbn [is_nil]. unfold splitlines. rewrite pieces_join by exact H.
  rewrite last_last, removelast_last. reflexivity.
Qed.

Lemma result_without_comment (links : list str) (g : str -> option str) :
  map (fun lh : str * option str => let (link, _) := lh in link)
      (combine links (map g links)) = links.
Proof.
  induction links as [|l links IH]; simpl; [|rewrite IH]; reflexivity.
Qed.

Lemma process_file_plain (e : environment) (text : str) :
  process_file e (Some text) false =
  let links := filter (fun link => negb (is_nil link))
                      (map strip_comment_from_line (splitlines text)) in
  Returns (Some (join [10] links ++ (if is_nil links then [] else [10])),
           Z.of_nat (List.length links)).
Proof.
  unfold process_file. cbn [andb]. cbv zeta.
  rewrite (result_without_comment _ (fun _ => None)). reflexivity.
Qed.







(** X19: without the new comment, [process_file] returns and writes the
    stripped non-empty lines, one per line; run on the file it has written
    it writes the same text and returns the same number. *)
Theorem process_file_plain_again (e : environment) (text : str) :
  exists out n,
    process_file e (Some text) false = Returns (Some out, n)
    /\ process_file e (Some out) false = Returns (Some out, n)
    /\ splitlines out =
       filter (fun link => negb (is_nil link))
              (map strip_comment_from_line (splitlines text)).
Proof.
  rewrite process_file_plain. cbv zeta.
  set (links := filter (fun link => negb (is_nil link))
                       (map strip_comment_from_line (splitlines text))).
  assert (Hclean : Forall clean links).
  { apply Forall_forall. intros l Hl. unfold links in Hl.
    apply filter_In in Hl. destruct Hl as [Hl _].
    apply in_map_iff in Hl. destruct Hl as [line [<- Hline]].
    intros c Hc. apply In_strip_comment in Hc.
    pose proof (splitlines_clean text) as Hs. rewrite Forall_forall in Hs.
    exact (Hs line Hline c Hc). }
  assert (Hfix : filter (fun link => negb (is_nil link))
                        (map strip_comment_from_line links) = links).
  { assert (Hall : forall l, In l links ->
                     strip_comment_from_line l = l /\ is_nil l = false).
    { intros l Hl. unfold links in Hl. apply filter_In in Hl.
      destruct Hl as [Hl Hne]. apply in_map_iff in Hl.
      destruct Hl as [line [<- _]]. split.
      - apply (strip_comment_facts line).
      - apply negb_true_iff in Hne. exact Hne. }
    clearbody links. clear Hclean.
    induction links as [|l ls IH]; [reflexivity|].
    cbn [map filter]. destruct (Hall l (or_introl eq_refl)) as [H1 H2].
    rewrite H1, H2. cbn [negb]. f_equal. apply IH.
    intros x Hx. apply Hall. right. exact Hx. }
  eexists. eexists. split; [reflexivity|]. split.
  - rewrite process_file_plain. cbv zeta.
    rewrite splitlines_join by exact Hclean. rewrite Hfix. reflexivity.
  - apply splitlines_join. exact Hclean.
Qed.








(** A link whose host has an empty label: the lookup raises, and so does
    [process_file] when it is to add the new comment; without the new
    comment, or in the fast mode, no host is looked up. *)
Example process_file_raises :
  let text := [118; 108; 101; 115; 115; 58; 47; 47; 117; 64; 104; 46; 46;
               120; 58; 52; 52; 51; 10] in
  process_file example_environment (Some text) true = Raises
  /\ process_file example_environment (Some text) false =
     Returns (Some text, 1).
Proof. vm_compute. split; reflexivity. Qed.

End ProcessFileFacts.
